(** * Shortutil: short-filename (8.3) checksums and wordlist pipeline

    A shallow embedding of [pkg/shortutil/shortutil.go] and the properties
    of it that the specification states.

    Go strings are byte sequences: a [gostring] is a [list ascii].  A rune
    is a [Z].  Fixed-width integers are [Z] with the wrap-around written
    out ([uint8], [uint16], [int32], [uint64]).  Functions of the Go
    standard library that the program calls are modelled in [Module Go]
    after their documented behaviour; the Unicode data tables they consult
    are a parameter ([UnicodeData]). *)

From Stdlib Require Import ZArith Ascii String Bool Lia List Permutation.
Import ListNotations.
Local Open Scope Z_scope.

(** ** Bytes, strings and fixed-width integers *)

Definition gostring := list ascii.
Definition rune := Z.

Definition str (s : string) : gostring := list_ascii_of_string s.

Definition b2z (c : ascii) : Z := Z.of_N (N_of_ascii c).
Definition z2b (z : Z) : ascii := ascii_of_N (Z.to_N (z mod 256)).

Definition len (s : gostring) : Z := Z.of_nat (length s).

Definition uint8 (z : Z) : Z := z mod 2 ^ 8.
Definition uint16 (z : Z) : Z := z mod 2 ^ 16.
Definition uint64 (z : Z) : Z := z mod 2 ^ 64.
Definition int32 (z : Z) : Z := (z + 2 ^ 31) mod 2 ^ 32 - 2 ^ 31.

Fixpoint gostring_eqb (a b : gostring) : bool :=
  match a, b with
  | [], [] => true
  | x :: a', y :: b' => Ascii.eqb x y && gostring_eqb a' b'
  | _, _ => false
  end.

Definition isASCII (s : gostring) : bool := forallb (fun c => b2z c <? 128) s.

(** ** The Go library functions the program calls *)

Module Go.

(** *** unicode/utf8 *)

Definition RuneError : rune := 0xFFFD.

Definition between (lo hi b : Z) : bool := (lo <=? b) && (b <=? hi).

(** [utf8.DecodeRuneInString]: the rune at the head of [s] and its width
    in bytes.  Ill-formed input gives [(RuneError, 1)]; the accepted ranges
    for the second byte are those of the package's [acceptRanges] table. *)
Definition DecodeRuneInString (s : gostring) : rune * nat :=
  match s with
  | [] => (RuneError, 0%nat)
  | c0 :: t =>
    let b0 := b2z c0 in
    if b0 <? 0x80 then (b0, 1%nat)
    else if between 0xC2 0xDF b0 then
      match t with
      | c1 :: _ =>
        let b1 := b2z c1 in
        if between 0x80 0xBF b1
        then (Z.lor (Z.shiftl (Z.land b0 0x1F) 6) (Z.land b1 0x3F), 2%nat)
        else (RuneError, 1%nat)
      | _ => (RuneError, 1%nat)
      end
    else if between 0xE0 0xEF b0 then
      let lo := if b0 =? 0xE0 then 0xA0 else 0x80 in
      let hi := if b0 =? 0xED then 0x9F else 0xBF in
      match t with
      | c1 :: c2 :: _ =>
        let b1 := b2z c1 in
        let b2 := b2z c2 in
        if between lo hi b1 && between 0x80 0xBF b2
        then (Z.lor (Z.lor (Z.shiftl (Z.land b0 0x0F) 12)
                           (Z.shiftl (Z.land b1 0x3F) 6))
                    (Z.land b2 0x3F), 3%nat)
        else (RuneError, 1%nat)
      | _ => (RuneError, 1%nat)
      end
    else if between 0xF0 0xF4 b0 then
      let lo := if b0 =? 0xF0 then 0x90 else 0x80 in
      let hi := if b0 =? 0xF4 then 0x8F else 0xBF in
      match t with
      | c1 :: c2 :: c3 :: _ =>
        let b1 := b2z c1 in
        let b2 := b2z c2 in
        let b3 := b2z c3 in
        if between lo hi b1 && between 0x80 0xBF b2 && between 0x80 0xBF b3
        then (Z.lor (Z.lor (Z.lor (Z.shiftl (Z.land b0 0x07) 18)
                                  (Z.shiftl (Z.land b1 0x3F) 12))
                           (Z.shiftl (Z.land b2 0x3F) 6))
                    (Z.land b3 0x3F), 4%nat)
        else (RuneError, 1%nat)
      | _ => (RuneError, 1%nat)
      end
    else (RuneError, 1%nat)
  end.

(** [for i, c := range s]: the pairs (byte offset of the rune, rune), in
    order.  [skip] counts the bytes still covered by the rune decoded
    last. *)
Fixpoint range_from (skip : nat) (i : Z) (s : gostring) : list (Z * rune) :=
  match s with
  | [] => []
  | _ :: t =>
    match skip with
    | S k => range_from k (i + 1) t
    | O => let (r, w) := DecodeRuneInString s in
           (i, r) :: range_from (Nat.pred w) (i + 1) t
    end
  end.

Definition range (s : gostring) : list (Z * rune) := range_from 0 0 s.

(** [for _, c := range s]. *)
Definition runes (s : gostring) : list rune := map snd (range s).

(** [utf8.AppendRune] / [string(r)]: the UTF-8 encoding of a rune;
    surrogates and values out of range encode [RuneError]. *)
Definition EncodeRune (r : rune) : gostring :=
  if between 0 0x7F r then [z2b r]
  else if between 0x80 0x7FF r then
    [z2b (Z.lor 0xC0 (Z.shiftr r 6)); z2b (Z.lor 0x80 (Z.land r 0x3F))]
  else if between 0x800 0xFFFF r && negb (between 0xD800 0xDFFF r) then
    [z2b (Z.lor 0xE0 (Z.shiftr r 12));
     z2b (Z.lor 0x80 (Z.land (Z.shiftr r 6) 0x3F));
     z2b (Z.lor 0x80 (Z.land r 0x3F))]
  else if between 0x10000 0x10FFFF r then
    [z2b (Z.lor 0xF0 (Z.shiftr r 18));
     z2b (Z.lor 0x80 (Z.land (Z.shiftr r 12) 0x3F));
     z2b (Z.lor 0x80 (Z.land (Z.shiftr r 6) 0x3F));
     z2b (Z.lor 0x80 (Z.land r 0x3F))]
  else [z2b 0xEF; z2b 0xBF; z2b 0xBD].

(** [string(rs)] for a [[]rune]. *)
Definition string_of_runes (rs : list rune) : gostring := flat_map EncodeRune rs.

(** [utf8.ValidString]. *)
Definition ValidString (s : gostring) : bool :=
  gostring_eqb (string_of_runes (runes s)) s.

(** Each rune of [s] with the bytes it was decoded from. *)
Fixpoint chunks_from (skip : nat) (s : gostring) : list (rune * gostring) :=
  match s with
  | [] => []
  | _ :: t =>
    match skip with
    | S k => chunks_from k t
    | O => let (r, w) := DecodeRuneInString s in
           (r, firstn w s) :: chunks_from (Nat.pred w) t
    end
  end.

Definition chunks (s : gostring) : list (rune * gostring) := chunks_from 0 s.

(** *** unicode

    The tables of package [unicode] and of [golang.org/x/text/unicode/norm]
    are data outside the program.  Below U+0080 the library decides in code
    and the model follows it; beyond, it consults [UnicodeData]. *)

Record UnicodeData : Type := {
  (** [unicode.To(unicode.UpperCase, r)] *)
  upper_case : rune -> rune;
  (** [unicode.To(unicode.LowerCase, r)] *)
  lower_case : rune -> rune;
  (** [unicode.Is(unicode.Mn, r)] *)
  is_Mn : rune -> bool;
  (** [norm.NFD.String(s)] *)
  NFD_String : gostring -> gostring
}.

(** What the proofs use of the tables: canonical decomposition leaves a
    string of ASCII bytes as it is, and no ASCII rune is a nonspacing
    mark. *)
Record UnicodeLaws (U : UnicodeData) : Prop := {
  NFD_ascii : forall s, isASCII s = true -> NFD_String U s = s;
  Mn_ascii : forall r, 0 <= r < 128 -> is_Mn U r = false
}.

(** [unicode.ToUpper] *)
Definition unicode_ToUpper (U : UnicodeData) (r : rune) : rune :=
  if r <=? 0x7F
  then (if between 97 122 r then r - 32 else r)
  else upper_case U r.

(** [unicode.ToLower] *)
Definition unicode_ToLower (U : UnicodeData) (r : rune) : rune :=
  if r <=? 0x7F
  then (if between 65 90 r then r + 32 else r)
  else lower_case U r.

(** [unicode.IsSpace]: the switch for Latin-1 and the rows of the
    [White_Space] table above it. *)
Definition unicode_IsSpace (r : rune) : bool :=
  if between 0 0xFF r
  then between 9 13 r || (r =? 32) || (r =? 0x85) || (r =? 0xA0)
  else (r =? 0x1680) || between 0x2000 0x200A r || between 0x2028 0x2029 r
       || (r =? 0x202F) || (r =? 0x205F) || (r =? 0x3000).

(** *** strings *)

(** [strings.Map]: a negative result drops the rune. *)
Definition Map (mapping : rune -> rune) (s : gostring) : gostring :=
  flat_map (fun c => let r := mapping c in
                     if r <? 0 then [] else EncodeRune r) (runes s).

Definition upper_byte (c : ascii) : ascii :=
  if between 97 122 (b2z c) then z2b (b2z c - 32) else c.

Definition lower_byte (c : ascii) : ascii :=
  if between 65 90 (b2z c) then z2b (b2z c + 32) else c.

(** [strings.ToUpper]: byte-wise on an ASCII-only string, else
    [Map(unicode.ToUpper, s)]. *)
Definition ToUpper (U : UnicodeData) (s : gostring) : gostring :=
  if isASCII s then map upper_byte s else Map (unicode_ToUpper U) s.

(** [strings.ToLower] *)
Definition ToLower (U : UnicodeData) (s : gostring) : gostring :=
  if isASCII s then map lower_byte s else Map (unicode_ToLower U) s.

Fixpoint HasPrefix (s p : gostring) {struct p} : bool :=
  match p, s with
  | [], _ => true
  | x :: p', y :: s' => Ascii.eqb x y && HasPrefix s' p'
  | _ :: _, [] => false
  end.

(** [strings.NewReplacer(old1, new1, old2, new2, ...)] with non-empty
    old strings: the pairs, compared in argument order. *)
Definition Replacer := list (gostring * gostring).

Fixpoint Replace_from (rp : Replacer) (skip : nat) (s : gostring) : gostring :=
  match s with
  | [] => []
  | c :: t =>
    match skip with
    | S k => Replace_from rp k t
    | O =>
      match find (fun on => HasPrefix s (fst on)) rp with
      | Some (old, new) => new ++ Replace_from rp (Nat.pred (length old)) t
      | None => c :: Replace_from rp 0 t
      end
    end
  end.

(** [Replacer.Replace]: replacements are made left to right, without
    overlapping matches. *)
Definition Replace (rp : Replacer) (s : gostring) : gostring :=
  Replace_from rp 0 s.

(** What a replacer whose old strings are single bytes puts for the
    byte [c]. *)
Definition replace_byte (rp : Replacer) (c : ascii) : gostring :=
  match find (fun on => HasPrefix [c] (fst on)) rp with
  | Some (_, new) => new
  | None => [c]
  end.

(** [strings.ReplaceAll(s, old, new)], [old] non-empty. *)
Definition ReplaceAll (s old new : gostring) : gostring :=
  Replace [(old, new)] s.

(** [strings.LastIndex(s, string(c))]: the offset of the last [c], or -1. *)
Fixpoint LastIndexByte_from (i : Z) (acc : Z) (s : gostring) (c : ascii) : Z :=
  match s with
  | [] => acc
  | x :: t => LastIndexByte_from (i + 1) (if Ascii.eqb x c then i else acc) t c
  end.

Definition LastIndexByte (s : gostring) (c : ascii) : Z :=
  LastIndexByte_from 0 (-1) s c.

Fixpoint dropWhile {A : Type} (p : A -> bool) (l : list A) : list A :=
  match l with
  | [] => []
  | x :: t => if p x then dropWhile p t else l
  end.

(** [strings.TrimSpace]: leading and trailing runes with [unicode.IsSpace]
    are cut.  (The library scans backwards with [DecodeLastRuneInString];
    a rune start is never inside another rune, so the trailing runes it
    finds are those of the forward scan.) *)
Definition TrimSpace (s : gostring) : gostring :=
  let sp := fun c : rune * gostring => unicode_IsSpace (fst c) in
  let cs := dropWhile sp (chunks s) in
  let cs := rev (dropWhile sp (rev cs)) in
  concat (map snd cs).

(** *** regexp

    The two expressions of the program are single character classes. *)
Inductive Regexp : Type :=
| CharClass (negated : bool) (ranges : list (rune * rune)).

Definition class_match (re : Regexp) (r : rune) : bool :=
  match re with
  | CharClass neg rs => xorb neg (existsb (fun lh => between (fst lh) (snd lh) r) rs)
  end.

(** [re.Split(s, 2)[0]]: the text before the first match, all of [s]
    without a match. *)
Definition Split2_head (re : Regexp) (s : gostring) : gostring :=
  match find (fun ir => class_match re (snd ir)) (range s) with
  | Some (i, _) => firstn (Z.to_nat i) s
  | None => s
  end.

(** [re.ReplaceAllString(s, "")]: the matching runes are deleted, the
    other bytes are copied. *)
Definition ReplaceAllString_empty (re : Regexp) (s : gostring) : gostring :=
  concat (map snd (filter (fun c => negb (class_match re (fst c))) (chunks s))).

(** *** net/url *)

Definition ishex (c : ascii) : bool :=
  let b := b2z c in between 48 57 b || between 97 102 b || between 65 70 b.

Definition unhex (c : ascii) : Z :=
  let b := b2z c in
  if between 48 57 b then b - 48
  else if between 97 102 b then b - 97 + 10
  else if between 65 70 b then b - 65 + 10
  else 0.

(** First pass of [unescape]: the [EscapeError] of the first ill-formed
    [%] escape, if any. *)
Fixpoint unescape_check (s : gostring) : option gostring :=
  match s with
  | [] => None
  | c :: t =>
    if Ascii.eqb c "%"%char then
      match t with
      | h1 :: h2 :: t' =>
        if ishex h1 && ishex h2 then unescape_check t' else Some (firstn 3 s)
      | _ => Some (firstn 3 s)
      end
    else unescape_check t
  end.

(** Second pass of [unescape], on checked input, in mode
    [encodePathSegment] (a [+] stays a [+]). *)
Fixpoint unescape_decode (s : gostring) : gostring :=
  match s with
  | [] => []
  | c :: t =>
    if Ascii.eqb c "%"%char then
      match t with
      | h1 :: h2 :: t' =>
        z2b (Z.lor (uint8 (Z.shiftl (unhex h1) 4)) (unhex h2)) :: unescape_decode t'
      | _ => []
      end
    else c :: unescape_decode t
  end.

(** [url.PathUnescape]: the decoded string and a nil error, or the empty
    string and an [EscapeError]. *)
Definition PathUnescape (s : gostring) : gostring * option gostring :=
  match unescape_check s with
  | Some e => ([], Some e)
  | None => (unescape_decode s, None)
  end.

(** *** path *)

(** [path.Base] *)
Definition Base (path : gostring) : gostring :=
  match path with
  | [] => str "."
  | _ =>
    let path := rev (dropWhile (Ascii.eqb "/"%char) (rev path)) in
    let i := LastIndexByte path "/"%char in
    let path := if 0 <=? i then skipn (Z.to_nat (i + 1)) path else path in
    match path with
    | [] => str "/"
    | _ => path
    end
  end.

(** *** fmt *)

Definition hexdigit (d : Z) : ascii :=
  nth (Z.to_nat d) (str "0123456789ABCDEF") "0"%char.

(** The digits of [n] in base 16, most significant first, upper case
    (the verb [%X]); [fuel] bounds the number of digits. *)
Fixpoint hex_digits (fuel : nat) (n : Z) (acc : gostring) : gostring :=
  match fuel with
  | O => acc
  | S k =>
    let acc' := hexdigit (n mod 16) :: acc in
    if n / 16 =? 0 then acc' else hex_digits k (n / 16) acc'
  end.

Definition zero_pad (w : nat) (s : gostring) : gostring :=
  repeat "0"%char (w - length s) ++ s.

(** [fmt.Sprintf("%04X", n)] for an unsigned [n] of at most 64 bits. *)
Definition Sprintf_04X (n : Z) : gostring := zero_pad 4 (hex_digits 16 n []).

(** [fmt.Sprintf("%02X", n)]. *)
Definition Sprintf_02X (n : Z) : gostring := zero_pad 2 (hex_digits 16 n []).

(** *** math and numeric conversions

    [float64(x)] of an [int32] is exact (|x| <= 2^31 < 2^53), and so is
    [math.Abs] of it: the float64 values that occur are integers and are
    represented by the integer itself.  [int32(v)] of a float64 [v] outside
    the range of [int32] is implementation-dependent in Go; the model takes
    the wrapped value, and [Checksum_abs_in_range] shows that the program
    never converts such a value. *)
Definition float64_of_int32 (x : Z) : Z := x.
Definition Abs (v : Z) : Z := Z.abs v.
Definition int32_of_float64 (v : Z) : Z := int32 v.

End Go.

(** ** Checksum Engine *)

(** The nibble swap that ends [Checksum] and [ChecksumOriginal]:
    [(ck&0xf000)>>12 | (ck&0x0f00)>>4 | (ck&0x00f0)<<4 | (ck&0x000f)<<12]
    on a [uint16]. *)
Definition swap_nibbles (ck : Z) : Z :=
  Z.lor (Z.lor (Z.lor (Z.shiftr (Z.land ck 0xf000) 12)
                      (Z.shiftr (Z.land ck 0x0f00) 4))
               (uint16 (Z.shiftl (Z.land ck 0x00f0) 4)))
        (uint16 (Z.shiftl (Z.land ck 0x000f) 12)).

(** The loop of [Checksum]: [ck = ck*0x25 + uint16(c)] in [uint16]. *)
Definition Checksum_loop (f : gostring) : Z :=
  fold_left (fun ck c => uint16 (ck * 0x25 + uint16 c)) (Go.runes f) 0.

(** The mixing step of [Checksum], from the accumulator to the [int32] [t]. *)
Definition Checksum_mix (ck : Z) : Z :=
  let t := Go.int32_of_float64
             (Go.Abs (Go.float64_of_int32 (int32 (int32 ck * 314159269)))) in
  int32 (t - int32 (uint64 (Z.shiftr (uint64 (uint64 t * uint64 1152921497)) 60
                            * uint64 1000000007))).

Definition Checksum (f : gostring) : gostring :=
  let ck := Checksum_loop f in
  let t := Checksum_mix ck in
  let ck := uint16 t in
  let ck := swap_nibbles ck in
  Go.Sprintf_04X ck.

(** Go's run-time panic (here: index out of range) ends the call without
    a result. *)
Inductive outcome (A : Type) : Type :=
| Returns (a : A)
| Panics.
Arguments Returns {A} a.
Arguments Panics {A}.

(** The loop of [ChecksumOriginal], [for i := 2; i < len(f); i += 2], on
    the bytes from offset 2: [hi] is [f[i]] and [lo], when there is one,
    is [f[i+1]]. *)
Fixpoint ChecksumOriginal_loop (ck : Z) (rest : gostring) : Z :=
  match rest with
  | [] => ck
  | hi :: rest' =>
    let ck :=
      if Z.land ck 1 =? 1
      then uint16 (0x8000 + Z.shiftr ck 1 + uint16 (Z.shiftl (b2z hi) 8))
      else uint16 (Z.shiftr ck 1 + uint16 (Z.shiftl (b2z hi) 8)) in
    match rest' with
    | [] => ck
    | lo :: rest'' =>
      ChecksumOriginal_loop (uint16 (ck + Z.land (b2z lo) 0xffff)) rest''
    end
  end.

(** [ChecksumOriginal]: [f[0]] and [f[1]] are read unconditionally. *)
Definition ChecksumOriginal (f : gostring) : outcome gostring :=
  match f with
  | f0 :: f1 :: rest =>
    let ck := Z.land (uint16 (uint16 (Z.shiftl (b2z f0) 8) + b2z f1)) 0xffff in
    let ck := ChecksumOriginal_loop ck rest in
    let ck := swap_nibbles ck in
    Returns (Go.Sprintf_04X ck)
  | _ => Panics
  end.

Definition ChecksumWin95 (f : gostring) : gostring :=
  let sum := fold_left (fun sum c => uint8 (sum + uint8 c)) (Go.runes f) 0 in
  Go.Sprintf_02X sum.

(** [ChecksumNT]: [i] is the index that [range] gives, [c] the rune. *)
Definition ChecksumNT_loop (f : gostring) : Z :=
  fold_left (fun sum ic => uint16 (sum + uint16 (uint16 (snd ic) * uint16 (fst ic + 1))))
            (Go.range f) 0.

Definition ChecksumNT (f : gostring) : gostring :=
  Go.Sprintf_04X (Z.lxor (ChecksumNT_loop f) 0xA5A5).

Definition ChecksumFAT32 (f : gostring) : gostring :=
  let sum := fold_left
               (fun sum c => uint8 (Z.lor (Z.shiftr sum 1) (uint8 (Z.shiftl sum 7))
                                    + uint8 c))
               (Go.runes f) 0 in
  Go.Sprintf_02X sum.

(** ** Unicode Folder *)

Section Unicode.

Variable U : Go.UnicodeData.

(** The loop of [ToASCII] over the runes of the normalised string. *)
Definition ToASCII_loop (rs : list rune) : list rune :=
  fold_left (fun ascii r =>
               if Go.is_Mn U r then ascii
               else if r >? 127 then ascii
               else ascii ++ [r])
            rs [].

(** The runes that the loop of [ToASCII] appends: neither a nonspacing
    mark nor above 127. *)
Definition kept (r : rune) : bool := negb (Go.is_Mn U r) && negb (r >? 127).

Definition ToASCII (s : gostring) : gostring :=
  let normStr := Go.NFD_String U s in
  Go.string_of_runes (ToASCII_loop (Go.runes normStr)).

(** ** Variant Expander *)

(** A [map[string]struct{}] as the list of its keys, without
    duplicates. *)
Definition strset := list gostring.

Definition strset_add (k : gostring) (m : strset) : strset :=
  if existsb (gostring_eqb k) m then m else m ++ [k].

(** Go does not fix the order in which [range] visits the keys of a map.
    A [map_order] is the order the run time takes for one range statement:
    from the keys to the sequence visited. *)
Definition map_order := strset -> list gostring.

Definition turkish : Go.Replacer :=
  [ (Go.EncodeRune 0x131, str "i"); (Go.EncodeRune 0x130, str "I");
    (Go.EncodeRune 0xF6, str "o"); (Go.EncodeRune 0xD6, str "O");
    (Go.EncodeRune 0xFC, str "u"); (Go.EncodeRune 0xDC, str "U");
    (Go.EncodeRune 0x15F, str "s"); (Go.EncodeRune 0x15E, str "S");
    (Go.EncodeRune 0x11F, str "g"); (Go.EncodeRune 0x11E, str "G");
    (Go.EncodeRune 0xE7, str "c"); (Go.EncodeRune 0xC7, str "C") ].

(** [[^a-zA-Z0-9_.-]] *)
Definition nonAlphanum : Go.Regexp :=
  Go.CharClass true [(97, 122); (65, 90); (48, 57); (95, 95); (46, 46); (45, 45)].

Definition GenerateVariants (order : map_order) (s : gostring) : list gostring :=
  let variants : strset := [] in
  let variants := strset_add s variants in
  let variants := strset_add (Go.ToLower U s) variants in
  let variants := strset_add (Go.ToUpper U s) variants in
  let variants := strset_add (ToASCII s) variants in
  let variants := strset_add (Go.Replace turkish s) variants in
  let variants := strset_add (Go.ReplaceAllString_empty nonAlphanum s) variants in
  filter (fun v => len v >? 0) (order variants).

(** ** ShortName Deriver *)

(** Modelled from the spec: [pkg/maths] is not among the source files; its
    [Min] is the smaller of two integers, as "truncate the substituted name
    to at most 6 characters ... shorter strings pass through unchanged". *)
Definition Min (a b : Z) : Z := if a <? b then a else b.

(** [shortReplacer]: space and dot are removed, [: + , ; = [ ]] become
    underscores. *)
Definition shortReplacer : Go.Replacer :=
  [ (str " ", str ""); (str ".", str ""); (str ":", str "_"); (str "+", str "_");
    (str ",", str "_"); (str ";", str "_"); (str "=", str "_"); (str "[", str "_");
    (str "]", str "_") ].

(** [s[:n]] for [0 <= n <= len(s)]. *)
Definition slice_to (s : gostring) (n : Z) : gostring := firstn (Z.to_nat n) s.

Definition Gen8dot3 (file ext : gostring) : bool * gostring * gostring :=
  let fu := Go.ToUpper U file in
  let fr := Go.Replace shortReplacer fu in
  let eu := Go.ToUpper U ext in
  let er := Go.Replace shortReplacer eu in
  let r := (len file >? 8) || (len ext >? 3)
           || negb (gostring_eqb fu fr) || negb (gostring_eqb eu er) in
  (r, slice_to fr (Min (len fr) 6), slice_to er (Min (len er) 3)).

Definition Gen8dot3Unicode (file ext : gostring) : bool * gostring * gostring :=
  let fu := Go.ToUpper U file in
  let fr := Go.Replace shortReplacer fu in
  let fr := ToASCII fr in
  let eu := Go.ToUpper U ext in
  let er := Go.Replace shortReplacer eu in
  let er := ToASCII er in
  let r := (len file >? 8) || (len ext >? 3)
           || negb (gostring_eqb fu fr) || negb (gostring_eqb eu er) in
  (r, slice_to fr (Min (len fr) 6), slice_to er (Min (len er) 3)).

(** The three results of a deriver. *)
Definition required (x : bool * gostring * gostring) : bool := fst (fst x).
Definition shortName (x : bool * gostring * gostring) : gostring := snd (fst x).
Definition shortExt (x : bool * gostring * gostring) : gostring := snd x.

(** ** Wordlist Pipeline *)

Record wordlistRecord : Type := {
  checksum : gostring;
  filename : gostring;
  extension : gostring;
  filename83 : gostring;
  extension83 : gostring
}.

(** The name and the extension of a record. *)
Definition name_ext (r : wordlistRecord) : gostring * gostring :=
  (filename r, extension r).

(** [[?;#&\r\n]], the expression [Run] passes to [ChecksumWords]. *)
Definition paramRegex : Go.Regexp :=
  Go.CharClass false [(63, 63); (59, 59); (35, 35); (38, 38); (13, 13); (10, 10)].

(** The two unescapes of a line; the errors are dropped ([w, _ := ...]). *)
Definition decode_line (line : gostring) : gostring :=
  let w := fst (Go.PathUnescape line) in
  let w := fst (Go.PathUnescape w) in
  w.

(** From the text of a line to the word [w] that is split. *)
Definition sanitize (re : Go.Regexp) (line : gostring) : gostring :=
  let w := decode_line line in
  let w := Go.Base w in
  let w := Go.Split2_head re w in
  let w := Go.TrimSpace w in
  let w := Go.ReplaceAll w (str (String (ascii_of_nat 9) EmptyString)) (str "") in
  w.

(** "Split the file and extension": [w[0]] is read only when [p > 0]. *)
Definition split_word (w : gostring) : gostring * gostring :=
  let p := Go.LastIndexByte w "."%char in
  if (p >? 0) && negb (Ascii.eqb (hd "."%char w) "."%char)
  then (firstn (Z.to_nat p) w, skipn (Z.to_nat (p + 1)) w)
  else (w, []).

(** The body of the loop of [ChecksumWords] for one line: the record to
    append, or [None] at [continue].  [Variants] is
    [args.Wordlist.Variants]; [o1] and [o2] order the range over the
    variants and the range over [vs]. *)
Definition process_line (Variants : bool) (re : Go.Regexp) (o1 o2 : map_order)
    (line : gostring) : option wordlistRecord :=
  let w := sanitize re line in
  let (f, e) := split_word w in
  let '(r, f83, e83) := Gen8dot3Unicode f e in
  if negb r then None
  else
    let vs : strset := [] in
    let vs :=
      if Variants
      then fold_left (fun vs v => strset_add (Checksum v) vs) (GenerateVariants o1 w) vs
      else vs in
    let c := fold_left (fun c v => c ++ v) (o2 vs) [] in
    Some {| checksum := c; filename := f; extension := e;
            filename83 := f83; extension83 := e83 |}.

(** [ChecksumWords] on the lines that the scanner yields ([s.Text()] at
    each [s.Scan()]).  The state of the loop is the slice [wc] and the
    number of lines read; [order n] is the map order of the [n]-th range
    statement over a map. *)
Definition ChecksumWords_step (Variants : bool) (re : Go.Regexp)
    (order : nat -> map_order) (st : list wordlistRecord * nat) (line : gostring)
    : list wordlistRecord * nat :=
  let (wc, n) := st in
  match process_line Variants re (order (2 * n)%nat) (order (2 * n + 1)%nat) line with
  | None => (wc, S n)
  | Some rec => (wc ++ [rec], S n)
  end.

Definition ChecksumWords (Variants : bool) (re : Go.Regexp)
    (order : nat -> map_order) (lines : list gostring) : list wordlistRecord :=
  fst (fold_left (ChecksumWords_step Variants re order) lines ([], 0%nat)).

(** ** The command line: [Run]

    The two subcommands of [Run], after the arguments are parsed and the
    wordlist is opened.  What is written to standard output is the
    sequence of the strings of the [fmt.Println] and [fmt.Printf] calls. *)

(** The record as it is printed: [f] and [e] replace the name and the
    extension ("Upper case the wordlist entry", unless
    [args.Wordlist.KeepCase]). *)
Definition cased (KeepCase : bool) (w : wordlistRecord) : wordlistRecord :=
  let (f, e) :=
    if KeepCase then (filename w, extension w)
    else (Go.ToUpper U (filename w), Go.ToUpper U (extension w)) in
  {| checksum := checksum w; filename := f; extension := e;
     filename83 := filename83 w; extension83 := extension83 w |}.

(** [fe := f + "." + e], the key of the map [words]. *)
Definition uniq_key (row : wordlistRecord) : gostring :=
  filename row ++ str "." ++ extension row.

(** The body of the loop over the records: the state is the map [words]
    and the rows printed so far. *)
Definition Run_wordlist_step (KeepCase Uniq : bool)
    (st : strset * list wordlistRecord) (w : wordlistRecord)
    : strset * list wordlistRecord :=
  let (words, rows) := st in
  let row := cased KeepCase w in
  if Uniq then
    let fe := uniq_key row in
    if existsb (gostring_eqb fe) words then (words, rows)
    else (strset_add fe words, rows ++ [row])
  else (words, rows ++ [row]).

Definition Run_wordlist_rows (KeepCase Uniq : bool) (wc : list wordlistRecord)
    : list wordlistRecord :=
  snd (fold_left (Run_wordlist_step KeepCase Uniq) wc ([], [])).

Definition tab : gostring := [ascii_of_nat 9].
Definition newline : gostring := [ascii_of_nat 10].

(** [fmt.Printf("%s\t%s\t%s\t%s\t%s\n", w.checksum, w.filename83,
    w.extension83, f, e)] *)
Definition Printf_row (row : wordlistRecord) : gostring :=
  checksum row ++ tab ++ filename83 row ++ tab ++ extension83 row ++ tab
  ++ filename row ++ tab ++ extension row ++ newline.

(** The [wordlist] subcommand: the header, then a line for each row. *)
Definition Run_wordlist (KeepCase Uniq Variants : bool) (order : nat -> map_order)
    (lines : list gostring) : list gostring :=
  (str "#SHORTSCAN#" ++ newline)
  :: map Printf_row
       (Run_wordlist_rows KeepCase Uniq (ChecksumWords Variants paramRegex order lines)).

End Unicode.

(** The values of [checksumAlgo]. *)
Definition AlgoModern : gostring := str "modern".
Definition AlgoOriginal : gostring := str "original".
Definition AlgoWin95 : gostring := str "win95".
Definition AlgoNT : gostring := str "nt".
Definition AlgoFAT32 : gostring := str "fat32".

(** The [checksum] subcommand: [switch args.Checksum.Algorithm], then
    [fmt.Println(c)].  [Algorithm] is the string of the [--algorithm]
    option; the flag [-o] is declared but not read. *)
Definition Run_checksum (Algorithm Filename : gostring) : outcome gostring :=
  let c :=
    if gostring_eqb Algorithm AlgoOriginal then ChecksumOriginal Filename
    else if gostring_eqb Algorithm AlgoWin95 then Returns (ChecksumWin95 Filename)
    else if gostring_eqb Algorithm AlgoNT then Returns (ChecksumNT Filename)
    else if gostring_eqb Algorithm AlgoFAT32 then Returns (ChecksumFAT32 Filename)
    else Returns (Checksum Filename) in
  match c with
  | Returns c => Returns (c ++ [ascii_of_nat 10])
  | Panics => Panics
  end.

(** ** The tables for Basic Latin and the Latin-1 Supplement

    A [UnicodeData] that holds the rows of the library's tables for the
    runes up to U+00FF (and the combining marks U+0300 to U+036F that their
    decompositions produce); it leaves other runes as they are.  The
    examples below are evaluated with it, on strings within this range. *)

Module Latin1.

Definition upper_case (r : rune) : rune :=
  if Go.between 0xE0 0xFE r && negb (r =? 0xF7) then r - 32
  else if r =? 0xFF then 0x178
  else if r =? 0xB5 then 0x39C
  else r.

Definition lower_case (r : rune) : rune :=
  if Go.between 0xC0 0xDE r && negb (r =? 0xD7) then r + 32 else r.

Definition is_Mn (r : rune) : bool := Go.between 0x300 0x36F r.

(** Canonical decompositions of the capital letters U+00C0 to U+00DD:
    rune, base letter, combining mark. *)
Definition capitals : list (rune * (rune * rune)) :=
  [ (0xC0, (65, 0x300)); (0xC1, (65, 0x301)); (0xC2, (65, 0x302));
    (0xC3, (65, 0x303)); (0xC4, (65, 0x308)); (0xC5, (65, 0x30A));
    (0xC7, (67, 0x327));
    (0xC8, (69, 0x300)); (0xC9, (69, 0x301)); (0xCA, (69, 0x302));
    (0xCB, (69, 0x308));
    (0xCC, (73, 0x300)); (0xCD, (73, 0x301)); (0xCE, (73, 0x302));
    (0xCF, (73, 0x308));
    (0xD1, (78, 0x303));
    (0xD2, (79, 0x300)); (0xD3, (79, 0x301)); (0xD4, (79, 0x302));
    (0xD5, (79, 0x303)); (0xD6, (79, 0x308));
    (0xD9, (85, 0x300)); (0xDA, (85, 0x301)); (0xDB, (85, 0x302));
    (0xDC, (85, 0x308));
    (0xDD, (89, 0x301)) ].

(** The small letters U+00E0 to U+00FD decompose as their capitals do,
    32 higher; U+00FF is [y] with diaeresis. *)
Definition decompose (r : rune) : option (rune * rune) :=
  match find (fun e => fst e =? r) capitals with
  | Some (_, bm) => Some bm
  | None =>
    match find (fun e => fst e + 32 =? r) capitals with
    | Some (_, (b, m)) => Some (b + 32, m)
    | None => if r =? 0xFF then Some (121, 0x308) else None
    end
  end.

Definition NFD_String (s : gostring) : gostring :=
  flat_map (fun c : rune * gostring =>
              match decompose (fst c) with
              | Some (b, m) => Go.EncodeRune b ++ Go.EncodeRune m
              | None => snd c
              end)
           (Go.chunks s).

Definition data : Go.UnicodeData :=
  {| Go.upper_case := upper_case;
     Go.lower_case := lower_case;
     Go.is_Mn := is_Mn;
     Go.NFD_String := NFD_String |}.

End Latin1.

(** A range over a map visits each key once. *)
Definition valid_map_order (o : map_order) : Prop :=
  forall keys, Permutation keys (o keys).

(** The order of insertion, one of the orders a map range can take. *)
Definition insertion_order : map_order := fun keys => keys.

(** ** The specification's wording

    Definitions that follow the sentences of the specification, to be
    compared with the program above. *)

Module Spec.

(** "ck = ck*0x25 + c over each code point c (with 16-bit wraparound)" *)
Definition accumulate (cs : list rune) : Z :=
  fold_left (fun ck c => (ck * 37 + c) mod 65536) cs 0.

(** The value of the low 32 bits of [z] read as a signed number. *)
Definition signed32 (z : Z) : Z :=
  let m := z mod 4294967296 in
  if m <? 2147483648 then m else m - 4294967296.

(** "multiplies ck as a signed 32-bit value by 314159269, takes the
    arithmetic absolute value, subtracts ((value as unsigned 64-bit *
    1152921497) >> 60) * 1000000007" *)
Definition mix (ck : Z) : Z :=
  let v := Z.abs (signed32 (ck * 314159269)) in
  v - (v * 1152921497 / 2 ^ 60) * 1000000007.

(** The [k]-th 4-bit group of [n], counted from the low end. *)
Definition nibble (k : Z) (n : Z) : Z := (n / 16 ^ k) mod 16.

(** "reverses the four 4-bit nibble groups end-to-end" *)
Definition reverse_nibbles (n : Z) : Z :=
  nibble 0 n * 4096 + nibble 1 n * 256 + nibble 2 n * 16 + nibble 3 n.

(** "4-digit uppercase zero-padded hexadecimal" *)
Definition hex4 (n : Z) : gostring :=
  [ Go.hexdigit (nibble 3 n); Go.hexdigit (nibble 2 n);
    Go.hexdigit (nibble 1 n); Go.hexdigit (nibble 0 n) ].

(** The modern algorithm, as the specification words it. *)
Definition Checksum (f : gostring) : gostring :=
  hex4 (reverse_nibbles (mix (accumulate (Go.runes f)) mod 65536)).

(** "each code point contributes its value multiplied by its 1-based
    code-point position": the sum for the code points [cs], the first of
    which has position [k]. *)
Fixpoint position_weighted (k : Z) (cs : list rune) : Z :=
  match cs with
  | [] => 0
  | c :: cs' => c * k + position_weighted (k + 1) cs'
  end.

(** The weighted algorithm with code-point positions, as the
    specification words it. *)
Definition ChecksumNT_by_position (f : gostring) : gostring :=
  hex4 (Z.lxor (position_weighted 1 (Go.runes f) mod 65536) 0xA5A5).

(** The weighted sum with each code point weighted by one more than the
    byte offset at which it starts. *)
Definition offset_weighted (ics : list (Z * rune)) : Z :=
  fold_right (fun ic acc => snd ic * (fst ic + 1) + acc) 0 ics.

Definition ChecksumNT_by_offset (f : gostring) : gostring :=
  hex4 (Z.lxor (offset_weighted (Go.range f) mod 65536) 0xA5A5).

(** "locate the last '.' that is not the first character; everything
    before is name, everything after is extension; absence of such a
    separator yields an empty extension": [p] is the offset of the last
    dot among the bytes after the first. *)
Definition split_last_interior_dot (w : gostring) : gostring * gostring :=
  match w with
  | [] => ([], [])
  | c :: t =>
    let p := Go.LastIndexByte t "."%char in
    if 0 <=? p
    then (c :: firstn (Z.to_nat p) t, skipn (Z.to_nat (p + 1)) t)
    else (w, [])
  end.

(** "required is true if and only if the original name exceeds 8
    characters, or the original extension exceeds 3 characters, or the
    case/character-set reduction actually changed the original string":
    [fr] and [er] are the reduced name and extension. *)
Definition required_if_changed (file ext fr er : gostring) : bool :=
  (len file >? 8) || (len ext >? 3)
  || negb (gostring_eqb file fr) || negb (gostring_eqb ext er).

(** The case and character-set reduction of the byte-oriented deriver. *)
Definition reduce (U : Go.UnicodeData) (s : gostring) : gostring :=
  Go.Replace shortReplacer (Go.ToUpper U s).

Definition required_by_claim (U : Go.UnicodeData) (file ext : gostring) : bool :=
  required_if_changed file ext (reduce U file) (reduce U ext).

(** "the Unicode-aware ShortName Deriver returned required == true for
    that line's name/extension split" *)
Definition gate (U : Go.UnicodeData) (re : Go.Regexp) (line : gostring) : bool :=
  let (f, e) := split_word (sanitize re line) in
  required (Gen8dot3Unicode U f e).

(** The bytes of the reserved-character table: space, dot, and
    [: + , ; = [ ]]. *)
Definition reserved (c : ascii) : bool :=
  existsb (Ascii.eqb c) (str " .:+,;=[]").

Definition has_reserved (s : gostring) : bool := existsb reserved s.

Definition upper_hex_digit (c : ascii) : bool :=
  existsb (Ascii.eqb c) (str "0123456789ABCDEF").

End Spec.

(** ** Predicates of the statements *)

(** A fingerprint of [width] upper-case hexadecimal digits. *)
Definition fingerprint (width : nat) (h : gostring) : Prop :=
  length h = width /\ forallb Spec.upper_hex_digit h = true.

(** No byte of [s] matches the parameter expression. *)
Definition no_delimiter (s : gostring) : Prop :=
  forall c, In c s -> Go.class_match paramRegex (b2z c) = false.

(** * Properties *)

(** ** Integers and formatting *)

Lemma uint16_range z : 0 <= uint16 z < 65536.
Proof. unfold uint16. change (2 ^ 16) with 65536. apply Z.mod_pos_bound. lia. Qed.

Lemma uint16_small z : 0 <= z < 65536 -> uint16 z = z.
Proof. intros H. unfold uint16. change (2 ^ 16) with 65536. apply Z.mod_small, H. Qed.

Lemma gostring_eqb_eq a b : gostring_eqb a b = true <-> a = b.
Proof.
  revert b. induction a as [|x a IH]; intros [|y b]; simpl; try (split; congruence).
  rewrite andb_true_iff, Ascii.eqb_eq, IH. split.
  - intros [-> ->]. reflexivity.
  - intros E. injection E as -> ->. auto.
Qed.

Lemma gostring_eqb_refl a : gostring_eqb a a = true.
Proof. apply gostring_eqb_eq. reflexivity. Qed.

Lemma gostring_eqb_neq a b : gostring_eqb a b = false <-> a <> b.
Proof.
  split.
  - intros H E. apply gostring_eqb_eq in E. congruence.
  - intros H. destruct (gostring_eqb a b) eqn:E; [|reflexivity].
    apply gostring_eqb_eq in E. contradiction.
Qed.


Lemma nibble_range k n : 0 <= Spec.nibble k n < 16.
Proof. unfold Spec.nibble. apply Z.mod_pos_bound. lia. Qed.

(** Masking with a shifted mask is masking the shifted value. *)
Lemma land_shiftl_mask n m k :
  0 <= k -> Z.land n (Z.shiftl m k) = Z.shiftl (Z.land (Z.shiftr n k) m) k.
Proof.
  intros Hk. apply Z.bits_inj'. intros i Hi. rewrite Z.land_spec.
  destruct (Z.lt_ge_cases i k) as [Hlt|Hge].
  - rewrite !Z.shiftl_spec_low by lia. apply andb_false_r.
  - rewrite !Z.shiftl_spec by lia. rewrite Z.land_spec, Z.shiftr_spec by lia.
    replace (i - k + k) with i by lia. reflexivity.
Qed.

(** The 4-bit group of [n] at bit [4*j], left in place. *)
Lemma land_nibble_mask n j :
  0 <= j -> Z.land n (Z.shiftl 15 (4 * j)) = Spec.nibble j n * 2 ^ (4 * j).
Proof.
  intros Hj. rewrite land_shiftl_mask by lia.
  change 15 with (Z.ones 4). rewrite Z.land_ones by lia.
  rewrite Z.shiftr_div_pow2, Z.shiftl_mul_pow2 by lia.
  unfold Spec.nibble. replace (16 ^ j) with (2 ^ (4 * j)); [reflexivity|].
  rewrite Z.pow_mul_r by lia. reflexivity.
Qed.

(** Bits that do not overlap add up. *)
Lemma lor_disjoint a b k :
  0 <= k -> 0 <= a < 2 ^ k -> Z.lor a (b * 2 ^ k) = a + b * 2 ^ k.
Proof.
  intros Hk Ha.
  assert (D : Z.land a (b * 2 ^ k) = 0).
  { apply Z.bits_inj'. intros i Hi. rewrite Z.land_spec, Z.bits_0.
    destruct (Z.lt_ge_cases i k) as [Hlt|Hge].
    - rewrite Z.mul_pow2_bits_low by lia. apply andb_false_r.
    - destruct (Z.eq_dec a 0) as [->|Hne]; [rewrite Z.bits_0; reflexivity|].
      rewrite (Z.bits_above_log2 a i); [reflexivity|lia|].
      assert (Z.log2 a < k) by (apply Z.log2_lt_pow2; lia). lia. }
  rewrite (Z.add_nocarry_lxor _ _ D). symmetry. apply Z.lxor_lor, D.
Qed.

(** The masks and shifts of the program reverse the four nibbles. *)
Lemma swap_nibbles_reverse n : 0 <= n < 65536 -> swap_nibbles n = Spec.reverse_nibbles n.
Proof.
  intros H. unfold swap_nibbles, Spec.reverse_nibbles.
  pose proof (nibble_range 0 n) as R0. pose proof (nibble_range 1 n) as R1.
  pose proof (nibble_range 2 n) as R2. pose proof (nibble_range 3 n) as R3.
  change 0xf000 with (Z.shiftl 15 (4 * 3)). change 0x0f00 with (Z.shiftl 15 (4 * 2)).
  change 0x00f0 with (Z.shiftl 15 (4 * 1)). change 0x000f with (Z.shiftl 15 (4 * 0)).
  rewrite !land_nibble_mask by lia.
  change (2 ^ (4 * 3)) with 4096. change (2 ^ (4 * 2)) with 256.
  change (2 ^ (4 * 1)) with 16. change (2 ^ (4 * 0)) with 1.
  rewrite !Z.shiftr_div_pow2, !Z.shiftl_mul_pow2 by lia.
  change (2 ^ 12) with 4096. change (2 ^ 4) with 16.
  rewrite Z.div_mul by lia.
  replace (Spec.nibble 2 n * 256 / 16) with (Spec.nibble 2 n * 16)
    by (Z.div_mod_to_equations; lia).
  rewrite !uint16_small by lia.
  replace (Spec.nibble 2 n * 16) with (Spec.nibble 2 n * 2 ^ 4) by lia.
  replace (Spec.nibble 1 n * 16 * 16) with (Spec.nibble 1 n * 2 ^ 8) by lia.
  replace (Spec.nibble 0 n * 1 * 4096) with (Spec.nibble 0 n * 2 ^ 12) by lia.
  rewrite (lor_disjoint (Spec.nibble 3 n)) by lia.
  rewrite (lor_disjoint (Spec.nibble 3 n + _)) by lia.
  rewrite lor_disjoint by lia.
  lia.
Qed.

Lemma swap_nibbles_range n : 0 <= n < 65536 -> 0 <= swap_nibbles n < 65536.
Proof.
  intros H. rewrite swap_nibbles_reverse by exact H. unfold Spec.reverse_nibbles.
  pose proof (nibble_range 0 n). pose proof (nibble_range 1 n).
  pose proof (nibble_range 2 n). pose proof (nibble_range 3 n). lia.
Qed.


Lemma hex4_digits n :
  Spec.hex4 n
  = [ Go.hexdigit (n / 16 / 16 / 16 mod 16); Go.hexdigit (n / 16 / 16 mod 16);
      Go.hexdigit (n / 16 mod 16); Go.hexdigit (n mod 16) ].
Proof.
  unfold Spec.hex4, Spec.nibble.
  change (16 ^ 3) with (16 * 16 * 16). change (16 ^ 2) with (16 * 16).
  change (16 ^ 1) with 16. change (16 ^ 0) with 1.
  rewrite Z.div_1_r, <- !Z.div_div by lia. reflexivity.
Qed.

(** [%04X] of a 16-bit value is its four nibbles, high to low. *)
Lemma Sprintf_04X_hex4 n : 0 <= n < 65536 -> Go.Sprintf_04X n = Spec.hex4 n.
Proof.
  intros H. rewrite hex4_digits. unfold Go.Sprintf_04X.
  assert (H1 : 0 <= n / 16 < 4096) by (Z.div_mod_to_equations; lia).
  assert (H2 : 0 <= n / 16 / 16 < 256) by (Z.div_mod_to_equations; lia).
  assert (H3 : 0 <= n / 16 / 16 / 16 < 16) by (Z.div_mod_to_equations; lia).
  assert (H4 : n / 16 / 16 / 16 / 16 = 0) by (apply Z.div_small; lia).
  cbn [Go.hex_digits].
  destruct (Z.eqb_spec (n / 16) 0) as [E1|N1].
  { rewrite E1. reflexivity. }
  destruct (Z.eqb_spec (n / 16 / 16) 0) as [E2|N2].
  { rewrite E2. reflexivity. }
  destruct (Z.eqb_spec (n / 16 / 16 / 16) 0) as [E3|N3].
  { rewrite E3. reflexivity. }
  rewrite H4. reflexivity.
Qed.

(** ** Modern checksum *)

Lemma fold_left_ext {A B} (f g : A -> B -> A) l a :
  (forall x y, f x y = g x y) -> fold_left f l a = fold_left g l a.
Proof.
  intros E. revert a. induction l as [|b l IH]; intros a; simpl; [reflexivity|].
  rewrite E. apply IH.
Qed.

Lemma fold_left_invariant {A B} (P : A -> Prop) (f : A -> B -> A) l a :
  P a -> (forall x y, P x -> P (f x y)) -> P (fold_left f l a).
Proof.
  intros Ha Hf. revert a Ha. induction l as [|b l IH]; intros a Ha; simpl; auto.
Qed.

Lemma int32_signed32 z : int32 z = Spec.signed32 z.
Proof.
  unfold int32, Spec.signed32.
  change (2 ^ 31) with 2147483648. change (2 ^ 32) with 4294967296.
  cbv zeta. destruct (Z.ltb_spec (z mod 4294967296) 2147483648);
  Z.div_mod_to_equations; lia.
Qed.

Lemma int32_small z : - 2147483648 <= z < 2147483648 -> int32 z = z.
Proof.
  intros H. unfold int32.
  change (2 ^ 31) with 2147483648. change (2 ^ 32) with 4294967296.
  rewrite Z.mod_small; lia.
Qed.

Lemma uint64_small z : 0 <= z < 18446744073709551616 -> uint64 z = z.
Proof. intros H. unfold uint64. change (2 ^ 64) with 18446744073709551616. apply Z.mod_small, H. Qed.

Lemma signed32_range z : - 2147483648 <= Spec.signed32 z < 2147483648.
Proof.
  unfold Spec.signed32. cbv zeta.
  destruct (Z.ltb_spec (z mod 4294967296) 2147483648); Z.div_mod_to_equations; lia.
Qed.

(** The product is never the least [int32]: its absolute value fits. *)
Lemma product_not_min ck :
  0 <= ck < 65536 -> Spec.signed32 (ck * 314159269) <> - 2147483648.
Proof.
  intros Hck E. unfold Spec.signed32 in E. cbv zeta in E.
  assert (Hm : (ck * 314159269) mod 4294967296 = 2147483648).
  { destruct (Z.ltb_spec ((ck * 314159269) mod 4294967296) 2147483648);
      Z.div_mod_to_equations; lia. }
  assert (Hd : (2147483648 | 314159269 * ck)).
  { exists (2 * (ck * 314159269 / 4294967296) + 1).
    Z.div_mod_to_equations. lia. }
  apply Z.gauss in Hd; [|reflexivity].
  destruct Hd as [k Hk]. assert (E0 : ck = 0) by lia.
  rewrite E0 in Hm. discriminate Hm.
Qed.

Lemma Checksum_abs_in_range ck :
  0 <= ck < 65536 ->
  0 <= Go.Abs (Go.float64_of_int32 (int32 (int32 ck * 314159269))) < 2147483648.
Proof.
  intros Hck. unfold Go.Abs, Go.float64_of_int32.
  rewrite (int32_small ck) by lia. rewrite int32_signed32.
  pose proof (signed32_range (ck * 314159269)).
  pose proof (product_not_min ck Hck). lia.
Qed.

Lemma Checksum_mix_spec ck : 0 <= ck < 65536 -> Checksum_mix ck = Spec.mix ck.
Proof.
  intros Hck. pose proof (Checksum_abs_in_range ck Hck) as Hv.
  unfold Checksum_mix, Spec.mix. cbv zeta.
  unfold Go.int32_of_float64.
  rewrite (int32_small (Go.Abs _)) by lia.
  revert Hv. unfold Go.Abs, Go.float64_of_int32.
  rewrite (int32_small ck) by lia. rewrite int32_signed32.
  generalize (Z.abs (Spec.signed32 (ck * 314159269))). intros v Hv.
  rewrite (uint64_small v) by lia.
  rewrite (uint64_small 1152921497) by lia.
  rewrite (uint64_small 1000000007) by lia.
  rewrite (uint64_small (v * 1152921497)) by lia.
  rewrite Z.shiftr_div_pow2 by lia.
  change (2 ^ 60) with 1152921504606846976.
  assert (Hq : 0 <= v * 1152921497 / 1152921504606846976 <= 2).
  { Z.div_mod_to_equations. lia. }
  rewrite uint64_small by lia.
  rewrite (int32_small (_ * 1000000007)) by lia.
  apply int32_small. lia.
Qed.

Lemma Checksum_loop_accumulate f : Checksum_loop f = Spec.accumulate (Go.runes f).
Proof.
  unfold Checksum_loop, Spec.accumulate. apply fold_left_ext.
  intros ck c. unfold uint16. change (2 ^ 16) with 65536. change 0x25 with 37.
  rewrite Z.add_mod_idemp_r by lia. reflexivity.
Qed.

Lemma accumulate_range cs : 0 <= Spec.accumulate cs < 65536.
Proof.
  unfold Spec.accumulate. apply fold_left_invariant; [lia|].
  intros x y _. apply Z.mod_pos_bound. lia.
Qed.

(** C1. For every input string, [Checksum] is the modern algorithm as the
    specification words it: the 16-bit multiply-add over the code points,
    the signed 32-bit product with 314159269, its absolute value, the
    subtraction of [((v * 1152921497) >> 60) * 1000000007], the truncation
    to 16 bits, the reversal of the four nibbles, and four upper-case
    hexadecimal digits. *)
Theorem Checksum_refines_spec : forall f, Checksum f = Spec.Checksum f.
Proof.
  intros f. unfold Checksum, Spec.Checksum. cbv zeta.
  rewrite Checksum_loop_accumulate.
  rewrite Checksum_mix_spec by apply accumulate_range.
  rewrite Sprintf_04X_hex4 by (apply swap_nibbles_range, uint16_range).
  rewrite swap_nibbles_reverse by apply uint16_range.
  reflexivity.
Qed.

(** ** Legacy byte-pair checksum *)

Lemma list_pair_ind {A} (P : list A -> Prop) :
  P [] -> (forall x, P [x]) -> (forall x y l, P l -> P (x :: y :: l)) ->
  forall l, P l.
Proof.
  intros H0 H1 H2 l.
  assert (H : P l /\ forall x, P (x :: l)).
  { induction l as [|y l [IH1 IH2]]; split; auto. }
  apply H.
Qed.

Lemma ChecksumOriginal_loop_range rest :
  forall ck, 0 <= ck < 65536 -> 0 <= ChecksumOriginal_loop ck rest < 65536.
Proof.
  induction rest as [|hi|hi lo rest IH] using list_pair_ind; intros ck Hck.
  - exact Hck.
  - cbn [ChecksumOriginal_loop]. destruct (Z.land ck 1 =? 1); apply uint16_range.
  - cbn [ChecksumOriginal_loop]. apply IH, uint16_range.
Qed.

Lemma hexdigit_upper d : 0 <= d < 16 -> Spec.upper_hex_digit (Go.hexdigit d) = true.
Proof.
  intros H.
  assert (E : d = 0 \/ d = 1 \/ d = 2 \/ d = 3 \/ d = 4 \/ d = 5 \/ d = 6 \/ d = 7 \/
              d = 8 \/ d = 9 \/ d = 10 \/ d = 11 \/ d = 12 \/ d = 13 \/ d = 14 \/ d = 15)
    by lia.
  repeat (destruct E as [-> | E]; [reflexivity|]). subst d. reflexivity.
Qed.

Lemma hex4_shape n :
  length (Spec.hex4 n) = 4%nat /\ forallb Spec.upper_hex_digit (Spec.hex4 n) = true.
Proof.
  split; [reflexivity|]. unfold Spec.hex4. cbn [forallb].
  rewrite !hexdigit_upper by apply nibble_range. reflexivity.
Qed.

(** C3. [ChecksumOriginal] needs two bytes: on an input of length 0 or 1
    it panics (index out of range) and returns no fingerprint; on every
    input of length at least 2 it returns four upper-case hexadecimal
    digits. *)
Theorem ChecksumOriginal_min_length : forall f,
  ((length f < 2)%nat -> ChecksumOriginal f = Panics) /\
  ((2 <= length f)%nat ->
   exists h, ChecksumOriginal f = Returns h /\
             length h = 4%nat /\ forallb Spec.upper_hex_digit h = true).
Proof.
  intros f. split.
  - intros H. destruct f as [|f0 [|f1 rest]]; simpl in H; try reflexivity. lia.
  - intros H. destruct f as [|f0 [|f1 rest]]; simpl in H; try lia.
    unfold ChecksumOriginal. cbv zeta.
    eexists. split; [reflexivity|].
    rewrite Sprintf_04X_hex4.
    + apply hex4_shape.
    + apply swap_nibbles_range, ChecksumOriginal_loop_range.
      change 0xffff with (Z.ones 16). rewrite Z.land_ones by lia.
      apply Z.mod_pos_bound. lia.
Qed.

Lemma ChecksumOriginal_min_length_witness :
  ChecksumOriginal (str "a") = Panics /\
  exists h, ChecksumOriginal (str "ab") = Returns h /\
            length h = 4%nat /\ forallb Spec.upper_hex_digit h = true.
Proof.
  split.
  - apply (proj1 (ChecksumOriginal_min_length (str "a"))). simpl. lia.
  - apply (proj2 (ChecksumOriginal_min_length (str "ab"))). simpl. lia.
Defined.

(** ** Weighted checksum *)

Lemma range_from_ascii f : forall i,
  isASCII f = true ->
  map snd (Go.range_from 0 i f) = map b2z f /\
  Spec.offset_weighted (Go.range_from 0 i f) = Spec.position_weighted (i + 1) (map b2z f).
Proof.
  induction f as [|c t IH]; intros i H.
  - split; reflexivity.
  - simpl in H. apply andb_true_iff in H. destruct H as [Hc Ht].
    cbn [Go.range_from]. unfold Go.DecodeRuneInString.
    cbv zeta. change 0x80 with 128. rewrite Hc. cbn [Nat.pred].
    destruct (IH (i + 1) Ht) as [IH1 IH2].
    split.
    + cbn [map snd]. rewrite IH1. reflexivity.
    + cbn [Spec.offset_weighted fold_right map Spec.position_weighted fst snd].
      fold (Spec.offset_weighted (Go.range_from 0 (i + 1) t)).
      rewrite IH2. reflexivity.
Qed.

Lemma runes_ascii f : isASCII f = true -> Go.runes f = map b2z f.
Proof. intros H. apply (range_from_ascii f 0 H). Qed.

Lemma ChecksumNT_fold l : forall a,
  0 <= a < 65536 ->
  fold_left (fun sum ic => uint16 (sum + uint16 (uint16 (snd ic) * uint16 (fst ic + 1))))
            l a
  = (a + Spec.offset_weighted l) mod 65536.
Proof.
  induction l as [|[i c] l IH]; intros a Ha.
  - simpl. rewrite Z.add_0_r, Z.mod_small; lia.
  - cbn [fold_left]. rewrite IH by apply uint16_range.
    cbn [Spec.offset_weighted fold_right fst snd].
    fold (Spec.offset_weighted l).
    unfold uint16. change (2 ^ 16) with 65536.
    rewrite <- Z.mul_mod by lia.
    rewrite Z.add_mod_idemp_r by lia.
    rewrite Z.add_mod_idemp_l by lia.
    f_equal. lia.
Qed.

Lemma ChecksumNT_loop_spec f :
  ChecksumNT_loop f = Spec.offset_weighted (Go.range f) mod 65536.
Proof. unfold ChecksumNT_loop. rewrite ChecksumNT_fold by lia. reflexivity. Qed.

Lemma lxor_uint16_range a b :
  0 <= a < 65536 -> 0 <= b < 65536 -> 0 <= Z.lxor a b < 65536.
Proof.
  intros Ha Hb.
  assert (H0 : 0 <= Z.lxor a b) by (apply Z.lxor_nonneg; lia).
  split; [exact H0|].
  destruct (Z.eq_dec (Z.lxor a b) 0) as [E|E]; [lia|].
  change 65536 with (2 ^ 16). apply Z.log2_lt_pow2; [lia|].
  pose proof (Z.log2_lxor a b ltac:(lia) ltac:(lia)) as Hl.
  assert (La : Z.log2 a < 16).
  { destruct (Z.eq_dec a 0) as [->|]; [reflexivity|]. apply Z.log2_lt_pow2; lia. }
  assert (Lb : Z.log2 b < 16).
  { destruct (Z.eq_dec b 0) as [->|]; [reflexivity|]. apply Z.log2_lt_pow2; lia. }
  lia.
Qed.

(** C8, counterexample. On the two code points U+00E9, U+0061 (three
    bytes) the program weights the second code point by 3, its byte offset
    plus one, not by its code-point position 2. *)
Lemma ChecksumNT_counts_bytes :
  ChecksumNT (Go.EncodeRune 0xE9 ++ str "a") = str "A7A9" /\
  Spec.ChecksumNT_by_position (Go.EncodeRune 0xE9 ++ str "a") = str "A40E" /\
  ChecksumNT (Go.EncodeRune 0xE9 ++ str "a")
  <> Spec.ChecksumNT_by_position (Go.EncodeRune 0xE9 ++ str "a").
Proof.
  split; [vm_compute; reflexivity|].
  split; [vm_compute; reflexivity|].
  vm_compute. discriminate.
Qed.

(** C8, amended. [ChecksumNT] is the 16-bit wrap-around sum in which each
    code point contributes its value times one more than the byte offset
    at which it starts, XORed with 0xA5A5, as four upper-case hexadecimal
    digits; on a string of ASCII bytes that weight is the 1-based
    code-point position. *)
Theorem ChecksumNT_weights_byte_offsets : forall f,
  ChecksumNT f = Spec.ChecksumNT_by_offset f /\
  (isASCII f = true -> ChecksumNT f = Spec.ChecksumNT_by_position f).
Proof.
  intros f.
  assert (E : ChecksumNT f = Spec.ChecksumNT_by_offset f).
  { unfold ChecksumNT, Spec.ChecksumNT_by_offset.
    rewrite ChecksumNT_loop_spec. apply Sprintf_04X_hex4.
    apply lxor_uint16_range; [|lia]. apply Z.mod_pos_bound. lia. }
  split; [exact E|].
  intros H. rewrite E. unfold Spec.ChecksumNT_by_offset, Spec.ChecksumNT_by_position.
  rewrite runes_ascii by exact H.
  unfold Go.range. rewrite (proj2 (range_from_ascii f 0 H)). reflexivity.
Qed.

Lemma ChecksumNT_weights_byte_offsets_witness :
  isASCII (str "ab") = true /\
  ChecksumNT (str "ab") = Spec.ChecksumNT_by_position (str "ab").
Proof.
  split.
  - reflexivity.
  - apply (proj2 (ChecksumNT_weights_byte_offsets (str "ab"))). reflexivity.
Defined.

(** ** Bytes and runes *)

Lemma b2z_range c : 0 <= b2z c < 256.
Proof.
  unfold b2z. pose proof (N_ascii_bounded c). lia.
Qed.

Lemma b2z_z2b r : 0 <= r < 256 -> b2z (z2b r) = r.
Proof.
  intros H. unfold b2z, z2b. rewrite Z.mod_small by lia.
  rewrite N_ascii_embedding by lia. lia.
Qed.

Lemma z2b_b2z c : z2b (b2z c) = c.
Proof.
  unfold z2b. rewrite Z.mod_small by apply b2z_range.
  unfold b2z. rewrite N2Z.id. apply ascii_N_embedding.
Qed.

Lemma DecodeRuneInString_nonneg s : 0 <= fst (Go.DecodeRuneInString s).
Proof.
  unfold Go.DecodeRuneInString, Go.RuneError.
  repeat match goal with
         | |- context [match ?l with [] => _ | _ :: _ => _ end] => destruct l
         | |- context [if ?b then _ else _] => destruct b
         end;
    cbn [fst]; try lia; try apply b2z_range;
    repeat (apply Z.lor_nonneg; split);
    try (apply Z.shiftl_nonneg); apply Z.land_nonneg; right; lia.
Qed.

Lemma range_from_Forall (P : rune -> Prop) :
  (forall s, P (fst (Go.DecodeRuneInString s))) ->
  forall s skip i, Forall P (map snd (Go.range_from skip i s)).
Proof.
  intros HP. induction s as [|c t IH]; intros skip i; [constructor|].
  cbn [Go.range_from]. destruct skip as [|k]; [|apply IH].
  specialize (HP (c :: t)).
  destruct (Go.DecodeRuneInString (c :: t)) as [r w].
  cbn [map snd]. constructor; [exact HP|apply IH].
Qed.

Lemma runes_nonneg s : Forall (fun r => 0 <= r) (Go.runes s).
Proof. apply range_from_Forall, DecodeRuneInString_nonneg. Qed.

Lemma isASCII_app a b : isASCII (a ++ b) = isASCII a && isASCII b.
Proof. apply forallb_app. Qed.

Lemma string_of_runes_z2b rs :
  Forall (fun r => 0 <= r <= 127) rs -> Go.string_of_runes rs = map z2b rs.
Proof.
  intros H. induction H as [|r rs Hr _ IH]; [reflexivity|].
  unfold Go.string_of_runes in *. cbn [flat_map map]. rewrite IH.
  unfold Go.EncodeRune, Go.between.
  destruct (Z.leb_spec 0 r); [|lia]. destruct (Z.leb_spec r 0x7F); [|lia].
  reflexivity.
Qed.

Lemma isASCII_z2b rs :
  Forall (fun r => 0 <= r <= 127) rs -> isASCII (map z2b rs) = true.
Proof.
  intros H. induction H as [|r rs Hr _ IH]; [reflexivity|].
  cbn [map isASCII forallb]. fold (isASCII (map z2b rs)). rewrite IH.
  rewrite b2z_z2b by lia. destruct (Z.ltb_spec r 128); [reflexivity|lia].
Qed.

(** A list of runes below 128 is encoded one byte each, and decodes to
    itself. *)
Lemma string_of_runes_ascii rs :
  Forall (fun r => 0 <= r <= 127) rs ->
  isASCII (Go.string_of_runes rs) = true /\ Go.runes (Go.string_of_runes rs) = rs.
Proof.
  intros H. rewrite (string_of_runes_z2b rs H).
  pose proof (isASCII_z2b rs H) as A.
  split; [exact A|].
  rewrite runes_ascii by exact A. rewrite map_map. clear A.
  induction H as [|r rs Hr _ IH]; [reflexivity|].
  cbn [map]. rewrite b2z_z2b by lia. f_equal. exact IH.
Qed.

Lemma string_of_runes_b2z s : isASCII s = true -> Go.string_of_runes (map b2z s) = s.
Proof.
  induction s as [|c t IH]; intros H; [reflexivity|].
  cbn [isASCII forallb] in H. apply andb_true_iff in H. destruct H as [Hc Ht].
  unfold Go.string_of_runes in *. cbn [map flat_map]. rewrite (IH Ht).
  unfold Go.EncodeRune, Go.between. pose proof (b2z_range c).
  apply Z.ltb_lt in Hc.
  destruct (Z.leb_spec 0 (b2z c)); [|lia]. destruct (Z.leb_spec (b2z c) 0x7F); [|lia].
  cbn [andb app]. rewrite z2b_b2z. reflexivity.
Qed.

Lemma ValidString_ascii s : isASCII s = true -> Go.ValidString s = true.
Proof.
  intros H. unfold Go.ValidString. rewrite runes_ascii by exact H.
  rewrite string_of_runes_b2z by exact H. apply gostring_eqb_refl.
Qed.

(** ** Unicode Folder *)

Section Folder.

Variable U : Go.UnicodeData.

Lemma ToASCII_loop_filter rs : ToASCII_loop U rs = filter (kept U) rs.
Proof.
  unfold ToASCII_loop.
  assert (G : forall acc,
             fold_left (fun ascii r => if Go.is_Mn U r then ascii
                                       else if r >? 127 then ascii else ascii ++ [r])
                       rs acc = acc ++ filter (kept U) rs).
  { induction rs as [|r rs IH]; intros acc; cbn [fold_left filter].
    - rewrite app_nil_r. reflexivity.
    - rewrite IH. unfold kept.
      destruct (Go.is_Mn U r); cbn [negb andb]; [reflexivity|].
      destruct (r >? 127); cbn [negb]; [reflexivity|].
      rewrite <- app_assoc. reflexivity. }
  apply (G []).
Qed.

Lemma kept_runes_ascii s :
  Forall (fun r => 0 <= r <= 127) (filter (kept U) (Go.runes s)).
Proof.
  apply Forall_forall. intros r Hr. apply filter_In in Hr. destruct Hr as [Hin Hk].
  pose proof (runes_nonneg s) as Hn. rewrite Forall_forall in Hn.
  specialize (Hn r Hin). unfold kept in Hk. apply andb_true_iff in Hk.
  destruct Hk as [_ Hk]. destruct (Z.gtb_spec r 127); [discriminate|lia].
Qed.

Lemma ToASCII_isASCII s : isASCII (ToASCII U s) = true.
Proof.
  unfold ToASCII. cbv zeta. rewrite ToASCII_loop_filter.
  apply string_of_runes_ascii, kept_runes_ascii.
Qed.

Lemma filter_idem {A} (p : A -> bool) l : filter p (filter p l) = filter p l.
Proof.
  induction l as [|x l IH]; [reflexivity|].
  cbn [filter]. destruct (p x) eqn:E; [|exact IH].
  cbn [filter]. rewrite E, IH. reflexivity.
Qed.

(** C9. The Unicode Folder is idempotent, for every normaliser that
    leaves strings of ASCII bytes unchanged (as canonical decomposition
    does). *)
Theorem ToASCII_idempotent :
  (forall t, isASCII t = true -> Go.NFD_String U t = t) ->
  forall s, ToASCII U (ToASCII U s) = ToASCII U s.
Proof.
  intros HNFD s.
  unfold ToASCII at 1. cbv zeta. rewrite HNFD by apply ToASCII_isASCII.
  unfold ToASCII. cbv zeta. rewrite !ToASCII_loop_filter.
  destruct (string_of_runes_ascii _ (kept_runes_ascii (Go.NFD_String U s))) as [_ E].
  rewrite E. rewrite filter_idem. reflexivity.
Qed.

End Folder.

(** ** The Latin-1 tables satisfy the laws *)

Lemma chunks_from_ascii s :
  isASCII s = true -> Go.chunks_from 0 s = map (fun c => (b2z c, [c])) s.
Proof.
  induction s as [|c t IH]; intros H; [reflexivity|].
  cbn [isASCII forallb] in H. apply andb_true_iff in H. destruct H as [Hc Ht].
  cbn [Go.chunks_from]. unfold Go.DecodeRuneInString. cbv zeta.
  change 0x80 with 128. rewrite Hc. cbn [Nat.pred firstn map].
  rewrite (IH Ht). reflexivity.
Qed.

Lemma Latin1_decompose_low r : r < 0xC0 -> Latin1.decompose r = None.
Proof.
  intros H. unfold Latin1.decompose, Latin1.capitals. cbn [find fst snd].
  repeat match goal with
         | |- context [?a =? r] => destruct (Z.eqb_spec a r); [lia|]
         end.
  destruct (Z.eqb_spec r 0xFF); [lia|reflexivity].
Qed.

Lemma Latin1_NFD_ascii s : isASCII s = true -> Latin1.NFD_String s = s.
Proof.
  intros H. unfold Latin1.NFD_String, Go.chunks. rewrite chunks_from_ascii by exact H.
  induction s as [|c t IH]; [reflexivity|].
  cbn [isASCII forallb] in H. apply andb_true_iff in H. destruct H as [Hc Ht].
  cbn [map flat_map fst snd]. rewrite Latin1_decompose_low.
  - cbn [app]. f_equal. apply IH, Ht.
  - apply Z.ltb_lt in Hc. lia.
Qed.

Lemma Latin1_laws : Go.UnicodeLaws Latin1.data.
Proof.
  split.
  - exact Latin1_NFD_ascii.
  - intros r Hr. cbn. unfold Latin1.is_Mn, Go.between.
    destruct (Z.leb_spec 0x300 r); [lia|reflexivity].
Qed.

Lemma ToASCII_idempotent_witness :
  (forall t, isASCII t = true -> Go.NFD_String Latin1.data t = t) /\
  ToASCII Latin1.data (ToASCII Latin1.data (Go.string_of_runes [0xE9; 116; 0xE9]))
  = ToASCII Latin1.data (Go.string_of_runes [0xE9; 116; 0xE9]).
Proof.
  split.
  - exact Latin1_NFD_ascii.
  - apply (ToASCII_idempotent Latin1.data Latin1_NFD_ascii).
Defined.

(** ** ShortName Deriver *)

Lemma slice_to_Min_length s n : 0 <= n -> (length (slice_to s (Min (len s) n)) <= Z.to_nat n)%nat.
Proof.
  intros Hn. unfold slice_to, Min, len. rewrite length_firstn.
  destruct (Z.ltb_spec (Z.of_nat (length s)) n); lia.
Qed.

Lemma isASCII_firstn n s : isASCII s = true -> isASCII (firstn n s) = true.
Proof.
  intros H. rewrite <- (firstn_skipn n s) in H. rewrite isASCII_app in H.
  apply andb_true_iff in H. apply H.
Qed.

(** C10. In the Unicode-aware deriver the short name and the short
    extension hold only ASCII bytes, at most 6 and at most 3 of them, and
    are valid UTF-8: the folding comes before the cut.  The byte-oriented
    deriver can cut a code point in two: on five [a] followed by U+00E9
    (valid UTF-8) its short name ends in the lone byte 0xC3. *)
Theorem Gen8dot3Unicode_ascii_bounded :
  (forall U file ext,
     isASCII (shortName (Gen8dot3Unicode U file ext)) = true /\
     isASCII (shortExt (Gen8dot3Unicode U file ext)) = true /\
     (length (shortName (Gen8dot3Unicode U file ext)) <= 6)%nat /\
     (length (shortExt (Gen8dot3Unicode U file ext)) <= 3)%nat /\
     Go.ValidString (shortName (Gen8dot3Unicode U file ext)) = true /\
     Go.ValidString (shortExt (Gen8dot3Unicode U file ext)) = true) /\
  (Go.ValidString (str "aaaaa" ++ Go.EncodeRune 0xE9) = true /\
   shortName (Gen8dot3 Latin1.data (str "aaaaa" ++ Go.EncodeRune 0xE9) [])
   = str "AAAAA" ++ [z2b 0xC3] /\
   Go.ValidString (shortName (Gen8dot3 Latin1.data (str "aaaaa" ++ Go.EncodeRune 0xE9) []))
   = false).
Proof.
  split.
  - intros U file ext. unfold Gen8dot3Unicode, shortName, shortExt. cbv zeta.
    cbn [fst snd].
    set (fr := ToASCII U (Go.Replace shortReplacer (Go.ToUpper U file))).
    set (er := ToASCII U (Go.Replace shortReplacer (Go.ToUpper U ext))).
    assert (Af : isASCII (slice_to fr (Min (len fr) 6)) = true)
      by (apply isASCII_firstn, ToASCII_isASCII).
    assert (Ae : isASCII (slice_to er (Min (len er) 3)) = true)
      by (apply isASCII_firstn, ToASCII_isASCII).
    repeat split; auto using ValidString_ascii.
    + apply (slice_to_Min_length fr 6). lia.
    + apply (slice_to_Min_length er 3). lia.
  - repeat split; vm_compute; reflexivity.
Qed.

(** A replacer whose old strings are single bytes works byte by byte. *)
Lemma find_single_byte (rp : Go.Replacer) c t :
  Forall (fun on => length (fst on) = 1%nat) rp ->
  find (fun on => Go.HasPrefix (c :: t) (fst on)) rp
  = find (fun on => Go.HasPrefix [c] (fst on)) rp.
Proof.
  intros H. induction H as [|[old new] rp Hold _ IH]; [reflexivity|].
  cbn [find fst]. cbn [fst] in Hold. rewrite IH.
  destruct old as [|x [|y old]]; try discriminate.
  cbn [Go.HasPrefix]. reflexivity.
Qed.

Lemma Replace_single_byte (rp : Go.Replacer) s :
  Forall (fun on => length (fst on) = 1%nat) rp ->
  Go.Replace rp s = flat_map (Go.replace_byte rp) s.
Proof.
  intros H. unfold Go.Replace. induction s as [|c t IH]; [reflexivity|].
  cbn [Go.Replace_from flat_map]. rewrite (find_single_byte rp c t H).
  unfold Go.replace_byte.
  destruct (find (fun on => Go.HasPrefix [c] (fst on)) rp) as [[old new]|] eqn:E.
  - apply find_some in E. destruct E as [Hin _].
    rewrite Forall_forall in H. specialize (H _ Hin). cbn [fst] in H.
    rewrite H. cbn [Nat.pred]. rewrite IH. reflexivity.
  - rewrite IH. reflexivity.
Qed.

Lemma shortReplacer_single : Forall (fun on => length (fst on) = 1%nat) shortReplacer.
Proof. repeat constructor. Qed.

Lemma short_byte_cases c :
  (Spec.reserved c = false /\ Go.replace_byte shortReplacer c = [c]) \/
  (Spec.reserved c = true /\ Go.replace_byte shortReplacer c = []) \/
  (Spec.reserved c = true /\ Go.replace_byte shortReplacer c = ["_"%char]
   /\ c <> "_"%char).
Proof.
  destruct c as [[] [] [] [] [] [] [] []];
    first [ left; split; reflexivity
          | right; left; split; reflexivity
          | right; right; split; [reflexivity|split; [reflexivity|discriminate]] ].
Qed.

Lemma Replace_short_length s : (length (Go.Replace shortReplacer s) <= length s)%nat.
Proof.
  rewrite (Replace_single_byte _ s shortReplacer_single).
  induction s as [|c t IH]; [reflexivity|].
  cbn [flat_map]. rewrite length_app. cbn [length].
  destruct (short_byte_cases c) as [[_ E]|[[_ E]|[_ [E _]]]]; rewrite E; cbn [length]; lia.
Qed.

(** The substitution leaves a string as it is exactly when the string
    holds no reserved byte. *)
Lemma Replace_short_fixed_iff s :
  Go.Replace shortReplacer s = s <-> Spec.has_reserved s = false.
Proof.
  induction s as [|c t IH].
  - split; reflexivity.
  - pose proof (Replace_short_length t) as HL.
    rewrite (Replace_single_byte _ (c :: t) shortReplacer_single).
    rewrite (Replace_single_byte _ t shortReplacer_single) in IH, HL.
    cbn [flat_map Spec.has_reserved existsb]. fold (Spec.has_reserved t).
    destruct (short_byte_cases c) as [[R E]|[[R E]|[R [E N]]]]; rewrite R, E; cbn [app orb].
    + rewrite <- IH. split; [intros H; injection H; auto | intros ->; reflexivity].
    + split; [|discriminate]. intros H. rewrite H in HL. cbn [length] in HL. lia.
    + split; [|discriminate]. intros H. injection H as H1 _. congruence.
Qed.

Lemma Replace_short_eqb s :
  gostring_eqb s (Go.Replace shortReplacer s) = negb (Spec.has_reserved s).
Proof.
  destruct (Spec.has_reserved s) eqn:R.
  - apply gostring_eqb_neq. intros E. symmetry in E.
    apply Replace_short_fixed_iff in E. congruence.
  - apply gostring_eqb_eq. symmetry. apply Replace_short_fixed_iff, R.
Qed.

Lemma Replace_short_isASCII s : isASCII s = true -> isASCII (Go.Replace shortReplacer s) = true.
Proof.
  rewrite (Replace_single_byte _ s shortReplacer_single).
  induction s as [|c t IH]; intros H; [reflexivity|].
  cbn [isASCII forallb] in H. apply andb_true_iff in H. destruct H as [Hc Ht].
  cbn [flat_map]. rewrite isASCII_app, (IH Ht), andb_true_r.
  destruct (short_byte_cases c) as [[_ E]|[[_ E]|[_ [E _]]]]; rewrite E;
    cbn [isASCII forallb]; [rewrite Hc|..]; reflexivity.
Qed.

Lemma upper_byte_facts c :
  Spec.reserved (Go.upper_byte c) = Spec.reserved c /\
  (b2z (Go.upper_byte c) <? 128) = (b2z c <? 128).
Proof. destruct c as [[] [] [] [] [] [] [] []]; split; reflexivity. Qed.

Lemma ToUpper_ascii U s : isASCII s = true -> Go.ToUpper U s = map Go.upper_byte s.
Proof. intros H. unfold Go.ToUpper. rewrite H. reflexivity. Qed.

Lemma upper_bytes_facts s :
  Spec.has_reserved (map Go.upper_byte s) = Spec.has_reserved s /\
  isASCII (map Go.upper_byte s) = isASCII s.
Proof.
  induction s as [|c t [IH1 IH2]]; [split; reflexivity|].
  destruct (upper_byte_facts c) as [E1 E2].
  split.
  - cbn [map Spec.has_reserved existsb]. fold (Spec.has_reserved (map Go.upper_byte t)).
    fold (Spec.has_reserved t). rewrite E1, IH1. reflexivity.
  - cbn [map isASCII forallb]. fold (isASCII (map Go.upper_byte t)). fold (isASCII t).
    rewrite E2, IH2. reflexivity.
Qed.

(** With tables that obey the laws, folding leaves a string of ASCII
    bytes as it is. *)
Lemma ToASCII_ascii U s : Go.UnicodeLaws U -> isASCII s = true -> ToASCII U s = s.
Proof.
  intros [HN HM] H. unfold ToASCII. cbv zeta. rewrite (HN s H).
  rewrite ToASCII_loop_filter, (runes_ascii s H).
  assert (E : filter (kept U) (map b2z s) = map b2z s).
  { clear HN. induction s as [|c t IH]; [reflexivity|].
    cbn [isASCII forallb] in H. apply andb_true_iff in H. destruct H as [Hc Ht].
    apply Z.ltb_lt in Hc. pose proof (b2z_range c).
    cbn [map filter]. unfold kept at 1.
    rewrite HM by lia. destruct (Z.gtb_spec (b2z c) 127); [lia|].
    cbn [negb andb]. rewrite (IH Ht). reflexivity. }
  rewrite E. apply string_of_runes_b2z, H.
Qed.

Lemma gtb_true_iff a b : (a >? b) = true <-> b < a.
Proof. destruct (Z.gtb_spec a b); split; intros; try lia; congruence. Qed.

(** In the Unicode-aware deriver the reduced string differs from the
    upper-cased one exactly when that holds a reserved byte or a byte
    outside ASCII. *)
Lemma folded_eqb U s :
  Go.UnicodeLaws U ->
  gostring_eqb s (ToASCII U (Go.Replace shortReplacer s))
  = negb (Spec.has_reserved s) && isASCII s.
Proof.
  intros L. destruct (isASCII s) eqn:A.
  - rewrite (ToASCII_ascii U _ L (Replace_short_isASCII s A)).
    rewrite Replace_short_eqb, andb_true_r. reflexivity.
  - rewrite andb_false_r. apply gostring_eqb_neq. intros E.
    pose proof (ToASCII_isASCII U (Go.Replace shortReplacer s)) as A'.
    rewrite <- E in A'. congruence.
Qed.

(** C2, counterexample. For the lower-case name [index] and extension
    [htm] both derivers report that no short name is required, although
    the reduction turns them into [INDEX] and [HTM]; and for five U+00C9
    (ten bytes, already upper case, nothing to substitute) the
    byte-oriented deriver reports that one is required. *)
Lemma lowercase_not_required :
  required (Gen8dot3 Latin1.data (str "index") (str "htm"))
  <> Spec.required_by_claim Latin1.data (str "index") (str "htm") /\
  required (Gen8dot3 Latin1.data (str "index") (str "htm")) = false /\
  required (Gen8dot3Unicode Latin1.data (str "index") (str "htm")) = false /\
  Spec.required_by_claim Latin1.data (str "index") (str "htm") = true /\
  Spec.reduce Latin1.data (Go.string_of_runes [0xC9; 0xC9; 0xC9; 0xC9; 0xC9])
  = Go.string_of_runes [0xC9; 0xC9; 0xC9; 0xC9; 0xC9] /\
  required (Gen8dot3 Latin1.data (Go.string_of_runes [0xC9; 0xC9; 0xC9; 0xC9; 0xC9]) [])
  = true.
Proof.
  split; [vm_compute; discriminate|].
  repeat split; vm_compute; reflexivity.
Qed.

(** C2, amended. [required] is true if and only if the original name is
    longer than 8 bytes, or the original extension is longer than 3 bytes,
    or the character-set reduction changes the upper-cased string: the
    upper-cased name or extension holds a reserved byte or, in the
    Unicode-aware deriver, a byte outside ASCII.  Case does not count: for
    an ASCII name of at most 8 bytes and an ASCII extension of at most 3
    bytes without reserved bytes, in upper or lower case, [required] is
    false. *)
Theorem required_iff_upper_reduced : forall U, Go.UnicodeLaws U -> forall file ext,
  (required (Gen8dot3 U file ext) = true <->
   8 < len file \/ 3 < len ext \/
   Spec.has_reserved (Go.ToUpper U file) = true \/
   Spec.has_reserved (Go.ToUpper U ext) = true) /\
  (required (Gen8dot3Unicode U file ext) = true <->
   8 < len file \/ 3 < len ext \/
   Spec.has_reserved (Go.ToUpper U file) = true \/ isASCII (Go.ToUpper U file) = false \/
   Spec.has_reserved (Go.ToUpper U ext) = true \/ isASCII (Go.ToUpper U ext) = false) /\
  (isASCII file = true -> isASCII ext = true ->
   len file <= 8 -> len ext <= 3 ->
   Spec.has_reserved file = false -> Spec.has_reserved ext = false ->
   required (Gen8dot3 U file ext) = false /\
   required (Gen8dot3Unicode U file ext) = false).
Proof.
  intros U L file ext.
  assert (B : required (Gen8dot3 U file ext) = true <->
              8 < len file \/ 3 < len ext \/
              Spec.has_reserved (Go.ToUpper U file) = true \/
              Spec.has_reserved (Go.ToUpper U ext) = true).
  { unfold required, Gen8dot3. cbv zeta. cbn [fst].
    rewrite !Replace_short_eqb, !negb_involutive, !orb_true_iff, !gtb_true_iff.
    tauto. }
  assert (C : required (Gen8dot3Unicode U file ext) = true <->
              8 < len file \/ 3 < len ext \/
              Spec.has_reserved (Go.ToUpper U file) = true \/
              isASCII (Go.ToUpper U file) = false \/
              Spec.has_reserved (Go.ToUpper U ext) = true \/
              isASCII (Go.ToUpper U ext) = false).
  { unfold required, Gen8dot3Unicode. cbv zeta. cbn [fst].
    rewrite !(folded_eqb U _ L), !negb_andb, !negb_involutive.
    rewrite !orb_true_iff, !gtb_true_iff, !negb_true_iff. tauto. }
  split; [exact B|]. split; [exact C|].
  intros Af Ae Lf Le Rf Re.
  assert (Uf := ToUpper_ascii U file Af). assert (Ue := ToUpper_ascii U ext Ae).
  destruct (upper_bytes_facts file) as [F1 F2].
  destruct (upper_bytes_facts ext) as [E1 E2].
  split.
  - destruct (required (Gen8dot3 U file ext)); [|reflexivity].
    destruct (proj1 B eq_refl) as [H|[H|[H|H]]]; try lia;
      rewrite ?Uf, ?Ue in H; congruence.
  - destruct (required (Gen8dot3Unicode U file ext)); [|reflexivity].
    destruct (proj1 C eq_refl) as [H|[H|[H|[H|[H|H]]]]]; try lia;
      rewrite ?Uf, ?Ue in H; congruence.
Qed.

Lemma required_iff_upper_reduced_witness :
  required (Gen8dot3 Latin1.data (str "report") (str "txt")) = false /\
  required (Gen8dot3Unicode Latin1.data (str "report") (str "txt")) = false.
Proof.
  apply (proj2 (proj2 (required_iff_upper_reduced Latin1.data Latin1_laws
                         (str "report") (str "txt"))));
    first [reflexivity | (vm_compute; discriminate)].
Defined.

(** ** Wordlist Pipeline: the split *)

Lemma LastIndexByte_from_spec c s : forall i acc,
  (~ In c s -> Go.LastIndexByte_from i acc s c = acc) /\
  (In c s -> exists pre post,
     s = pre ++ c :: post /\ ~ In c post /\
     Go.LastIndexByte_from i acc s c = i + len pre).
Proof.
  induction s as [|x t IH]; intros i acc.
  - split; [reflexivity|intros []].
  - cbn [Go.LastIndexByte_from].
    destruct (IH (i + 1) (if Ascii.eqb x c then i else acc)) as [IHn IHy].
    destruct (in_dec ascii_dec c t) as [Hin|Hnin].
    + split; [intros H; exfalso; apply H; right; exact Hin|].
      intros _. destruct (IHy Hin) as (pre & post & E & Hp & R).
      exists (x :: pre), post. subst t. split; [reflexivity|]. split; [exact Hp|].
      rewrite R. unfold len. cbn [length]. lia.
    + rewrite (IHn Hnin). split.
      * intros H. destruct (Ascii.eqb_spec x c) as [->|]; [|reflexivity].
        exfalso. apply H. left. reflexivity.
      * intros [->|H]; [|contradiction].
        exists [], t. rewrite Ascii.eqb_refl. unfold len. cbn [length app].
        split; [reflexivity|]. split; [exact Hnin|lia].
Qed.

Lemma skipn_length_app {A} (pre l : list A) : skipn (length pre) (pre ++ l) = l.
Proof. induction pre as [|x pre IH]; [reflexivity|exact IH]. Qed.

Lemma firstn_length_app {A} (pre l : list A) : firstn (length pre) (pre ++ l) = pre.
Proof. induction pre as [|x pre IH]; [destruct l; reflexivity|cbn; f_equal; exact IH]. Qed.

Lemma LastIndexByte_from_shift c s : forall i acc,
  Go.LastIndexByte_from i acc s c
  = if Go.LastIndexByte_from 0 (-1) s c <? 0 then acc
    else i + Go.LastIndexByte_from 0 (-1) s c.
Proof.
  induction s as [|x t IH]; intros i acc; [reflexivity|].
  cbn [Go.LastIndexByte_from].
  rewrite (IH (i + 1)), (IH (0 + 1)).
  destruct (Z.ltb_spec (Go.LastIndexByte_from 0 (-1) t c) 0) as [Hlt|Hge].
  - destruct (Ascii.eqb x c); cbn; [f_equal; lia|reflexivity].
  - destruct (Z.ltb_spec (0 + 1 + Go.LastIndexByte_from 0 (-1) t c) 0); lia.
Qed.

(** Off a word that does not begin with a dot, the program splits as the
    specification says. *)
Lemma split_word_interior w :
  hd_error w <> Some "."%char -> split_word w = Spec.split_last_interior_dot w.
Proof.
  intros Hd. destruct w as [|x t]; [reflexivity|].
  assert (Hx : x <> "."%char) by (intros ->; apply Hd; reflexivity).
  apply Ascii.eqb_neq in Hx.
  unfold split_word, Spec.split_last_interior_dot, Go.LastIndexByte. cbv zeta.
  cbn [Go.LastIndexByte_from hd]. rewrite Hx. cbn [negb].
  rewrite (LastIndexByte_from_shift "."%char t (0 + 1) (-1)).
  set (r := Go.LastIndexByte_from 0 (-1) t "."%char).
  destruct (Z.ltb_spec r 0) as [Hlt|Hge].
  - destruct (Z.leb_spec 0 r); [lia|]. reflexivity.
  - destruct (Z.leb_spec 0 r); [|lia].
    destruct (Z.gtb_spec (0 + 1 + r) 0); [|lia]. cbn [andb].
    replace (Z.to_nat (0 + 1 + r)) with (S (Z.to_nat r)) by lia.
    replace (Z.to_nat (0 + 1 + r + 1)) with (S (Z.to_nat (r + 1))) by lia.
    reflexivity.
Qed.

(** C6, counterexample. The word [.foo.bar] is not split at its later
    dot: it is the name, whole, with an empty extension. *)
Lemma leading_dot_not_split :
  split_word (str ".foo.bar") = (str ".foo.bar", []) /\
  Spec.split_last_interior_dot (str ".foo.bar") = (str ".foo", str "bar") /\
  split_word (str ".foo.bar") <> Spec.split_last_interior_dot (str ".foo.bar").
Proof.
  split; [vm_compute; reflexivity|]. split; [vm_compute; reflexivity|].
  vm_compute. discriminate.
Qed.

(** C6, amended. A word that begins with a dot, or holds no dot, is the
    name, whole, and the extension is empty.  Any other word is split at
    its last dot: the name is what stands before it (not empty), the
    extension what stands after it; this is the split at the last dot that
    is not the first character. *)
Theorem split_word_spec : forall w,
  (hd_error w <> Some "."%char -> split_word w = Spec.split_last_interior_dot w) /\
  (hd_error w = Some "."%char \/ ~ In "."%char w -> split_word w = (w, [])) /\
  (hd_error w <> Some "."%char -> In "."%char w ->
   exists name ext,
     split_word w = (name, ext) /\ w = name ++ "."%char :: ext /\
     ~ In "."%char ext /\ name <> []).
Proof.
  intros w. split; [apply split_word_interior|].
  unfold split_word, Go.LastIndexByte. cbv zeta.
  destruct (LastIndexByte_from_spec "."%char w 0 (-1)) as [Hn Hy].
  split.
  - intros [Hd|Hnin].
    + destruct w as [|x t]; [discriminate|]. injection Hd as ->.
      cbn [hd]. rewrite Ascii.eqb_refl. cbn [negb]. rewrite andb_false_r. reflexivity.
    + rewrite (Hn Hnin). reflexivity.
  - intros Hd Hin. destruct (Hy Hin) as (pre & post & E & Hp & R).
    exists pre, post. rewrite R. subst w.
    destruct pre as [|x pre]; [exfalso; apply Hd; reflexivity|].
    assert (Hx : x <> "."%char) by (intros ->; apply Hd; reflexivity).
    cbn [app hd]. apply Ascii.eqb_neq in Hx. rewrite Hx. cbn [negb].
    assert (Hpos : (0 + len (x :: pre) >? 0) = true).
    { unfold len. cbn [length]. destruct (Z.gtb_spec (0 + Z.of_nat (S (length pre))) 0); [reflexivity|lia]. }
    rewrite Hpos. cbn [andb].
    replace (Z.to_nat (0 + len (x :: pre))) with (length (x :: pre)) by (unfold len; lia).
    replace (Z.to_nat (0 + len (x :: pre) + 1)) with (length ((x :: pre) ++ ["."%char]))
      by (rewrite length_app; unfold len; cbn [length]; lia).
    change (x :: pre ++ "."%char :: post) with ((x :: pre) ++ "."%char :: post).
    rewrite firstn_length_app.
    replace ((x :: pre) ++ "."%char :: post) with (((x :: pre) ++ ["."%char]) ++ post)
      by (rewrite <- app_assoc; reflexivity).
    rewrite skipn_length_app.
    split; [reflexivity|]. split; [rewrite <- app_assoc; reflexivity|].
    split; [exact Hp|discriminate].
Qed.

Lemma split_word_spec_witness :
  split_word (str ".foo.bar") = (str ".foo.bar", []) /\
  exists name ext,
    split_word (str "a.b.c") = (name, ext) /\ str "a.b.c" = name ++ "."%char :: ext /\
    ~ In "."%char ext /\ name <> [].
Proof.
  split.
  - apply (proj1 (proj2 (split_word_spec (str ".foo.bar")))). left. reflexivity.
  - apply (proj2 (proj2 (split_word_spec (str "a.b.c")))).
    + discriminate.
    + simpl. tauto.
Defined.

(** ** Wordlist Pipeline: gate and records *)

Section Pipeline.

Variable U : Go.UnicodeData.
Variable Variants : bool.
Variable re : Go.Regexp.

(** One line: no record when the gate is shut, else a record with the
    name and extension of the split. *)
Lemma process_line_gate o1 o2 line :
  match process_line U Variants re o1 o2 line with
  | None => Spec.gate U re line = false
  | Some rec => Spec.gate U re line = true /\
                name_ext rec = split_word (sanitize re line)
  end.
Proof.
  unfold process_line, Spec.gate, required, name_ext. cbv zeta.
  destruct (split_word (sanitize re line)) as [f e].
  destruct (Gen8dot3Unicode U f e) as [[r f83] e83]. cbn [fst].
  destruct r; cbn [negb]; [split; reflexivity|reflexivity].
Qed.

Lemma ChecksumWords_fold order lines : forall wc n,
  map name_ext (fst (fold_left (ChecksumWords_step U Variants re order) lines (wc, n)))
  = map name_ext wc
    ++ map (fun l => split_word (sanitize re l)) (filter (Spec.gate U re) lines).
Proof.
  induction lines as [|line lines IH]; intros wc n.
  - cbn. rewrite app_nil_r. reflexivity.
  - cbn [fold_left filter]. unfold ChecksumWords_step at 2.
    pose proof (process_line_gate (order (2 * n)%nat) (order (2 * n + 1)%nat) line) as G.
    destruct (process_line U Variants re (order (2 * n)%nat) (order (2 * n + 1)%nat) line)
      as [rec|].
    + destruct G as [G E]. rewrite IH, G, map_app. cbn [map].
      rewrite E, <- app_assoc. reflexivity.
    + rewrite IH, G. reflexivity.
Qed.


End Pipeline.

(** C7. A record is appended for a line if and only if the Unicode-aware
    deriver reports [required] for the split of the sanitised line: a line
    gives no record exactly when the gate is shut, and the records are, in
    order, those of the lines whose gate is open, one each. *)
Theorem ChecksumWords_gate : forall U Variants re order lines,
  (forall o1 o2 line,
     process_line U Variants re o1 o2 line = None <-> Spec.gate U re line = false) /\
  map name_ext (ChecksumWords U Variants re order lines)
  = map (fun l => split_word (sanitize re l)) (filter (Spec.gate U re) lines) /\
  length (ChecksumWords U Variants re order lines)
  = length (filter (Spec.gate U re) lines).
Proof.
  intros U Variants re order lines.
  assert (M : map name_ext (ChecksumWords U Variants re order lines)
              = map (fun l => split_word (sanitize re l)) (filter (Spec.gate U re) lines)).
  { unfold ChecksumWords. rewrite ChecksumWords_fold. reflexivity. }
  split; [|split; [exact M|]].
  - intros o1 o2 line. pose proof (process_line_gate U Variants re o1 o2 line) as G.
    destruct (process_line U Variants re o1 o2 line) as [rec|].
    + destruct G as [G _]. split; [discriminate|congruence].
    + split; [intros _; exact G|reflexivity].
  - rewrite <- (length_map name_ext), M, length_map. reflexivity.
Qed.



Lemma insertion_order_valid : valid_map_order insertion_order.
Proof. intros keys. apply Permutation_refl. Qed.


(** C5. The line [100%25.txt] is the escaped form of [100%.txt].  The
    first unescape gives that text; the second meets the lone [%], and
    [PathUnescape] returns the empty string with its error; the error is
    dropped and the text of the line is lost: the record is that of the
    word [.], which [path.Base] gives for the empty string.  A line with an
    ill-formed escape, [100%], ends the same way. *)
Theorem unescape_error_loses_line :
  Go.PathUnescape (str "100%25.txt") = (str "100%.txt", None) /\
  Go.PathUnescape (str "100%.txt") = ([], Some (str "%.t")) /\
  decode_line (str "100%25.txt") = [] /\
  decode_line (str "100%") = [] /\
  sanitize paramRegex (str "100%25.txt") = str "." /\
  map name_ext (ChecksumWords Latin1.data true paramRegex (fun _ => insertion_order)
                              [str "100%25.txt"; str "100%"])
  = [ (str ".", []); (str ".", []) ].
Proof. repeat split; vm_compute; reflexivity. Qed.

(** * Further properties of the program *)

(** ** The fingerprints have a fixed width *)

Lemma uint8_range z : 0 <= uint8 z < 256.
Proof. unfold uint8. change (2 ^ 8) with 256. apply Z.mod_pos_bound. lia. Qed.

(** [%02X] of an 8-bit value is its two nibbles. *)
Lemma Sprintf_02X_digits n :
  0 <= n < 256 ->
  Go.Sprintf_02X n = [Go.hexdigit (n / 16 mod 16); Go.hexdigit (n mod 16)].
Proof.
  intros H. unfold Go.Sprintf_02X.
  assert (H1 : 0 <= n / 16 < 16) by (Z.div_mod_to_equations; lia).
  assert (H2 : n / 16 / 16 = 0) by (apply Z.div_small; lia).
  cbn [Go.hex_digits].
  destruct (Z.eqb_spec (n / 16) 0) as [E1|N1].
  { rewrite E1. reflexivity. }
  rewrite H2. reflexivity.
Qed.

Lemma Sprintf_02X_shape n :
  0 <= n < 256 ->
  length (Go.Sprintf_02X n) = 2%nat /\
  forallb Spec.upper_hex_digit (Go.Sprintf_02X n) = true.
Proof.
  intros H. rewrite Sprintf_02X_digits by exact H. split; [reflexivity|].
  cbn [forallb]. rewrite !hexdigit_upper by (apply Z.mod_pos_bound; lia). reflexivity.
Qed.

Lemma fold_left_range {A} (lo hi : Z) (f : Z -> A -> Z) l a :
  lo <= a < hi -> (forall x y, lo <= f x y < hi) -> lo <= fold_left f l a < hi.
Proof.
  intros Ha Hf. revert a Ha. induction l as [|b l IH]; intros a Ha; simpl; auto.
Qed.

Lemma Checksum_shape f : fingerprint 4 (Checksum f).
Proof.
  unfold Checksum. cbv zeta.
  rewrite Sprintf_04X_hex4 by (apply swap_nibbles_range, uint16_range).
  apply hex4_shape.
Qed.

Lemma ChecksumNT_shape f : fingerprint 4 (ChecksumNT f).
Proof.
  unfold ChecksumNT. rewrite Sprintf_04X_hex4; [apply hex4_shape|].
  apply lxor_uint16_range; [|lia]. rewrite ChecksumNT_loop_spec.
  apply Z.mod_pos_bound. lia.
Qed.

Lemma ChecksumWin95_shape f : fingerprint 2 (ChecksumWin95 f).
Proof.
  unfold ChecksumWin95. cbv zeta. apply Sprintf_02X_shape.
  apply fold_left_range; [lia|]. intros x y. apply uint8_range.
Qed.

Lemma ChecksumFAT32_shape f : fingerprint 2 (ChecksumFAT32 f).
Proof.
  unfold ChecksumFAT32. cbv zeta. apply Sprintf_02X_shape.
  apply fold_left_range; [lia|]. intros x y. apply uint8_range.
Qed.

Lemma ChecksumOriginal_shape f0 f1 rest :
  exists h, ChecksumOriginal (f0 :: f1 :: rest) = Returns h /\ fingerprint 4 h.
Proof.
  unfold ChecksumOriginal. cbv zeta. eexists. split; [reflexivity|].
  rewrite Sprintf_04X_hex4; [apply hex4_shape|].
  apply swap_nibbles_range, ChecksumOriginal_loop_range.
  change 0xffff with (Z.ones 16). rewrite Z.land_ones by lia.
  apply Z.mod_pos_bound. lia.
Qed.

(** X1. [Checksum] and [ChecksumNT] return four upper-case hexadecimal
    digits, whatever the input. *)
Theorem four_digit_fingerprints : forall f,
  fingerprint 4 (Checksum f) /\ fingerprint 4 (ChecksumNT f).
Proof. intros f. split; [apply Checksum_shape|apply ChecksumNT_shape]. Qed.

(** X2. [ChecksumWin95] and [ChecksumFAT32] return two upper-case
    hexadecimal digits, whatever the input. *)
Theorem two_digit_fingerprints : forall f,
  fingerprint 2 (ChecksumWin95 f) /\ fingerprint 2 (ChecksumFAT32 f).
Proof. intros f. split; [apply ChecksumWin95_shape|apply ChecksumFAT32_shape]. Qed.

(** ** The byte sum does not see the order *)





(** ** The legacy checksum of a two-byte name *)

Lemma hexdigit_inj d e :
  0 <= d < 16 -> 0 <= e < 16 -> Go.hexdigit d = Go.hexdigit e -> d = e.
Proof.
  intros Hd He.
  assert (D : d = 0 \/ d = 1 \/ d = 2 \/ d = 3 \/ d = 4 \/ d = 5 \/ d = 6 \/ d = 7 \/
              d = 8 \/ d = 9 \/ d = 10 \/ d = 11 \/ d = 12 \/ d = 13 \/ d = 14 \/ d = 15)
    by lia.
  assert (E : e = 0 \/ e = 1 \/ e = 2 \/ e = 3 \/ e = 4 \/ e = 5 \/ e = 6 \/ e = 7 \/
              e = 8 \/ e = 9 \/ e = 10 \/ e = 11 \/ e = 12 \/ e = 13 \/ e = 14 \/ e = 15)
    by lia.
  clear Hd He.
  repeat (destruct D as [-> | D]);
    repeat (destruct E as [-> | E]); subst;
    intros H; first [reflexivity | discriminate H].
Qed.

Lemma ChecksumOriginal_two_bytes a b :
  ChecksumOriginal [a; b]
  = Returns [ Go.hexdigit (b2z b mod 16); Go.hexdigit (b2z b / 16);
              Go.hexdigit (b2z a mod 16); Go.hexdigit (b2z a / 16) ].
Proof.
  pose proof (b2z_range a) as Ha. pose proof (b2z_range b) as Hb.
  unfold ChecksumOriginal. cbv zeta. cbn [ChecksumOriginal_loop].
  rewrite Z.shiftl_mul_pow2 by lia. change (2 ^ 8) with 256.
  rewrite (uint16_small (b2z a * 256)) by lia.
  rewrite uint16_small by lia.
  change 0xffff with (Z.ones 16). rewrite Z.land_ones by lia.
  change (2 ^ 16) with 65536. rewrite Z.mod_small by lia.
  set (ck := b2z a * 256 + b2z b).
  assert (Hck : 0 <= ck < 65536) by (unfold ck; lia).
  rewrite swap_nibbles_reverse by exact Hck.
  pose proof (nibble_range 0 ck) as R0. pose proof (nibble_range 1 ck) as R1.
  pose proof (nibble_range 2 ck) as R2. pose proof (nibble_range 3 ck) as R3.
  assert (N0 : Spec.nibble 0 ck = b2z b mod 16)
    by (unfold Spec.nibble, ck; change (16 ^ 0) with 1; Z.div_mod_to_equations; lia).
  assert (N1 : Spec.nibble 1 ck = b2z b / 16)
    by (unfold Spec.nibble, ck; change (16 ^ 1) with 16; Z.div_mod_to_equations; lia).
  assert (N2 : Spec.nibble 2 ck = b2z a mod 16)
    by (unfold Spec.nibble, ck; change (16 ^ 2) with 256; Z.div_mod_to_equations; lia).
  assert (N3 : Spec.nibble 3 ck = b2z a / 16)
    by (unfold Spec.nibble, ck; change (16 ^ 3) with 4096; Z.div_mod_to_equations; lia).
  unfold Spec.reverse_nibbles.
  set (r := Spec.nibble 0 ck * 4096 + Spec.nibble 1 ck * 256 + Spec.nibble 2 ck * 16
            + Spec.nibble 3 ck).
  assert (Hr : 0 <= r < 65536) by (unfold r; lia).
  rewrite Sprintf_04X_hex4 by exact Hr. unfold Spec.hex4.
  assert (M3 : Spec.nibble 3 r = Spec.nibble 0 ck)
    by (unfold Spec.nibble at 1, r; change (16 ^ 3) with 4096; Z.div_mod_to_equations; lia).
  assert (M2 : Spec.nibble 2 r = Spec.nibble 1 ck)
    by (unfold Spec.nibble at 1, r; change (16 ^ 2) with 256; Z.div_mod_to_equations; lia).
  assert (M1 : Spec.nibble 1 r = Spec.nibble 2 ck)
    by (unfold Spec.nibble at 1, r; change (16 ^ 1) with 16; Z.div_mod_to_equations; lia).
  assert (M0 : Spec.nibble 0 r = Spec.nibble 3 ck)
    by (unfold Spec.nibble at 1, r; change (16 ^ 0) with 1; Z.div_mod_to_equations; lia).
  rewrite M3, M2, M1, M0, N0, N1, N2, N3. reflexivity.
Qed.

Lemma b2z_inj a b : b2z a = b2z b -> a = b.
Proof. intros H. rewrite <- (z2b_b2z a), <- (z2b_b2z b), H. reflexivity. Qed.

(** X4. On a name of two bytes [ChecksumOriginal] returns the hexadecimal
    digits of the two bytes in reverse order (low nibble of the second
    byte first), so two different two-byte names never share a
    fingerprint. *)
Theorem ChecksumOriginal_two_bytes_injective : forall a b a' b',
  ChecksumOriginal [a; b]
  = Returns [ Go.hexdigit (b2z b mod 16); Go.hexdigit (b2z b / 16);
              Go.hexdigit (b2z a mod 16); Go.hexdigit (b2z a / 16) ] /\
  (ChecksumOriginal [a; b] = ChecksumOriginal [a'; b'] -> a = a' /\ b = b').
Proof.
  intros a b a' b'. split; [apply ChecksumOriginal_two_bytes|].
  rewrite !ChecksumOriginal_two_bytes. intros H.
  injection H as H0 H1 H2 H3.
  pose proof (b2z_range a). pose proof (b2z_range b).
  pose proof (b2z_range a'). pose proof (b2z_range b').
  apply hexdigit_inj in H0; [|Z.div_mod_to_equations; lia..].
  apply hexdigit_inj in H1; [|Z.div_mod_to_equations; lia..].
  apply hexdigit_inj in H2; [|Z.div_mod_to_equations; lia..].
  apply hexdigit_inj in H3; [|Z.div_mod_to_equations; lia..].
  split; apply b2z_inj; Z.div_mod_to_equations; lia.
Qed.

Lemma ChecksumOriginal_two_bytes_injective_witness :
  "a"%char = "a"%char /\ "b"%char = "b"%char.
Proof.
  apply (proj2 (ChecksumOriginal_two_bytes_injective "a"%char "b"%char "a"%char "b"%char)).
  reflexivity.
Defined.

(** ** More on the Unicode Folder *)

(** X5. Whatever the tables, [ToASCII] returns ASCII bytes only, hence
    valid UTF-8, and no more bytes than the normalised string has
    runes. *)
Theorem ToASCII_output_ascii : forall U s,
  isASCII (ToASCII U s) = true /\
  Go.ValidString (ToASCII U s) = true /\
  (length (ToASCII U s) <= length (Go.runes (Go.NFD_String U s)))%nat.
Proof.
  intros U s. pose proof (ToASCII_isASCII U s) as A.
  split; [exact A|]. split; [apply ValidString_ascii, A|].
  unfold ToASCII. cbv zeta. rewrite ToASCII_loop_filter.
  rewrite string_of_runes_z2b by apply kept_runes_ascii.
  rewrite length_map. apply filter_length_le.
Qed.

(** X6. With tables that obey the laws, the strings that [ToASCII] leaves
    unchanged are exactly the strings of ASCII bytes. *)
Theorem ToASCII_fixed_points : forall U, Go.UnicodeLaws U -> forall s,
  ToASCII U s = s <-> isASCII s = true.
Proof.
  intros U L s. split.
  - intros E. rewrite <- E. apply ToASCII_isASCII.
  - apply ToASCII_ascii, L.
Qed.

Lemma ToASCII_fixed_points_witness :
  ToASCII Latin1.data (str "Report-2.txt") = str "Report-2.txt" <->
  isASCII (str "Report-2.txt") = true.
Proof. apply (ToASCII_fixed_points Latin1.data Latin1_laws). Defined.

(** ** Variant Expander *)

Lemma existsb_gostring_eqb k m : existsb (gostring_eqb k) m = true <-> In k m.
Proof.
  rewrite existsb_exists. split.
  - intros [x [Hin E]]. apply gostring_eqb_eq in E. subst. exact Hin.
  - intros H. exists k. split; [exact H|apply gostring_eqb_refl].
Qed.

Lemma strset_add_In k m x : In x (strset_add k m) <-> x = k \/ In x m.
Proof.
  unfold strset_add. destruct (existsb (gostring_eqb k) m) eqn:E.
  - apply existsb_gostring_eqb in E. split; [auto|]. intros [->|H]; assumption.
  - rewrite in_app_iff. cbn [In]. intuition (subst; auto).
Qed.

Lemma strset_add_NoDup k m : NoDup m -> NoDup (strset_add k m).
Proof.
  intros H. unfold strset_add. destruct (existsb (gostring_eqb k) m) eqn:E; [exact H|].
  assert (N : ~ In k m).
  { intros Hin. apply existsb_gostring_eqb in Hin. congruence. }
  apply NoDup_rev in H. rewrite <- (rev_involutive (m ++ [k])).
  apply NoDup_rev. rewrite rev_app_distr. cbn [rev app]. constructor; [|exact H].
  rewrite <- in_rev. exact N.
Qed.

Lemma strset_add_length k m : (length (strset_add k m) <= S (length m))%nat.
Proof.
  unfold strset_add. destruct (existsb (gostring_eqb k) m); [lia|].
  rewrite length_app. cbn [length]. lia.
Qed.

Lemma len_positive (v : gostring) : (len v >? 0) = true <-> v <> [].
Proof.
  unfold len. destruct v as [|c v]; cbn [length].
  - split; [discriminate|congruence].
  - split; [discriminate|]. intros _. apply gtb_true_iff. lia.
Qed.

Lemma GenerateVariants_spec : forall U order s,
  valid_map_order order ->
  NoDup (GenerateVariants U order s) /\
  (length (GenerateVariants U order s) <= 6)%nat /\
  (forall v, In v (GenerateVariants U order s) <->
     v <> [] /\
     (v = s \/ v = Go.ToLower U s \/ v = Go.ToUpper U s \/ v = ToASCII U s \/
      v = Go.Replace turkish s \/ v = Go.ReplaceAllString_empty nonAlphanum s)).
Proof.
  intros U order s Hord. unfold GenerateVariants. cbv zeta.
  set (vs := strset_add _ _).
  assert (ND : NoDup vs) by (unfold vs; do 6 apply strset_add_NoDup; constructor).
  assert (LE : (length vs <= 6)%nat).
  { unfold vs.
    do 6 (eapply Nat.le_trans; [apply strset_add_length|]; apply le_n_S).
    apply Nat.le_refl. }
  assert (IN : forall v, In v vs <->
                v = s \/ v = Go.ToLower U s \/ v = Go.ToUpper U s \/ v = ToASCII U s \/
                v = Go.Replace turkish s \/ v = Go.ReplaceAllString_empty nonAlphanum s).
  { intros v. unfold vs. rewrite !strset_add_In. cbn [In]. tauto. }
  pose proof (Hord vs) as P.
  split; [|split].
  - apply NoDup_filter. apply (Permutation_NoDup P ND).
  - eapply Nat.le_trans; [apply filter_length_le|].
    rewrite <- (Permutation_length P). exact LE.
  - intros v. rewrite filter_In, len_positive, <- IN. split.
    + intros [H1 H2]. split; [exact H2|].
      apply (Permutation_in v (Permutation_sym P) H1).
    + intros [H1 H2]. split; [|exact H1]. apply (Permutation_in v P H2).
Qed.

(** X7. For every order in which the map is ranged over,
    [GenerateVariants] returns at most six strings, all different, none
    empty: the non-empty ones among the word, its lower case, its upper
    case, its ASCII folding, its Turkish-letter replacement and its
    restriction to [[a-zA-Z0-9_.-]]. *)
Theorem GenerateVariants_members : forall U order s,
  valid_map_order order ->
  NoDup (GenerateVariants U order s) /\
  (length (GenerateVariants U order s) <= 6)%nat /\
  (forall v, In v (GenerateVariants U order s) <->
     v <> [] /\
     (v = s \/ v = Go.ToLower U s \/ v = Go.ToUpper U s \/ v = ToASCII U s \/
      v = Go.Replace turkish s \/ v = Go.ReplaceAllString_empty nonAlphanum s)).
Proof. exact GenerateVariants_spec. Qed.

Lemma GenerateVariants_members_witness :
  valid_map_order insertion_order /\
  NoDup (GenerateVariants Latin1.data insertion_order (str "Ping.aspx")).
Proof.
  split; [exact insertion_order_valid|].
  exact (proj1 (GenerateVariants_members Latin1.data insertion_order (str "Ping.aspx")
                  insertion_order_valid)).
Defined.

(** ** More on the ShortName Deriver *)

Lemma Replace_short_no_reserved s :
  Spec.has_reserved (Go.Replace shortReplacer s) = false.
Proof.
  rewrite (Replace_single_byte _ s shortReplacer_single).
  induction s as [|c t IH]; [reflexivity|].
  cbn [flat_map]. unfold Spec.has_reserved in *. rewrite existsb_app, IH, orb_false_r.
  destruct (short_byte_cases c) as [[R E]|[[_ E]|[_ [E _]]]]; rewrite E; cbn [existsb].
  - rewrite R. reflexivity.
  - reflexivity.
  - reflexivity.
Qed.

Lemma has_reserved_firstn n s :
  Spec.has_reserved s = false -> Spec.has_reserved (firstn n s) = false.
Proof.
  intros H. rewrite <- (firstn_skipn n s) in H. unfold Spec.has_reserved in *.
  rewrite existsb_app in H. apply orb_false_iff in H. apply H.
Qed.

Lemma Gen8dot3_bounds : forall U file ext,
  (length (shortName (Gen8dot3 U file ext)) <= 6)%nat /\
  (length (shortExt (Gen8dot3 U file ext)) <= 3)%nat /\
  Spec.has_reserved (shortName (Gen8dot3 U file ext)) = false /\
  Spec.has_reserved (shortExt (Gen8dot3 U file ext)) = false.
Proof.
  intros U file ext. unfold Gen8dot3, shortName, shortExt. cbv zeta. cbn [fst snd].
  repeat split.
  - apply (slice_to_Min_length _ 6). lia.
  - apply (slice_to_Min_length _ 3). lia.
  - apply has_reserved_firstn, Replace_short_no_reserved.
  - apply has_reserved_firstn, Replace_short_no_reserved.
Qed.

(** X8. The byte-oriented deriver returns a short name of at most 6 bytes
    and a short extension of at most 3 bytes, and neither holds a space, a
    dot or one of [: + , ; = [ ]]. *)
Theorem Gen8dot3_bounded_clean : forall U file ext,
  (length (shortName (Gen8dot3 U file ext)) <= 6)%nat /\
  (length (shortExt (Gen8dot3 U file ext)) <= 3)%nat /\
  Spec.has_reserved (shortName (Gen8dot3 U file ext)) = false /\
  Spec.has_reserved (shortExt (Gen8dot3 U file ext)) = false.
Proof. exact Gen8dot3_bounds. Qed.

Lemma ToUpper_ascii_isASCII U s : isASCII s = true -> isASCII (Go.ToUpper U s) = true.
Proof.
  intros H. rewrite (ToUpper_ascii U s H).
  rewrite (proj2 (upper_bytes_facts s)). exact H.
Qed.

(** X9. With tables that obey the laws, the two derivers agree on a name
    and an extension of ASCII bytes. *)
Theorem Gen8dot3Unicode_ascii_agrees : forall U, Go.UnicodeLaws U -> forall file ext,
  isASCII file = true -> isASCII ext = true ->
  Gen8dot3Unicode U file ext = Gen8dot3 U file ext.
Proof.
  intros U L file ext Af Ae. unfold Gen8dot3Unicode, Gen8dot3. cbv zeta.
  rewrite (ToASCII_ascii U (Go.Replace shortReplacer (Go.ToUpper U file)) L)
    by (apply Replace_short_isASCII, ToUpper_ascii_isASCII, Af).
  rewrite (ToASCII_ascii U (Go.Replace shortReplacer (Go.ToUpper U ext)) L)
    by (apply Replace_short_isASCII, ToUpper_ascii_isASCII, Ae).
  reflexivity.
Qed.

Lemma Gen8dot3Unicode_ascii_agrees_witness :
  isASCII (str "my file.text") = true /\
  Gen8dot3Unicode Latin1.data (str "my file") (str "text")
  = Gen8dot3 Latin1.data (str "my file") (str "text").
Proof.
  split; [reflexivity|].
  apply (Gen8dot3Unicode_ascii_agrees Latin1.data Latin1_laws); reflexivity.
Defined.

(** No byte of [s] is a small ASCII letter. *)
Lemma upper_byte_idem c : Go.upper_byte (Go.upper_byte c) = Go.upper_byte c.
Proof. destruct c as [[] [] [] [] [] [] [] []]; reflexivity. Qed.

Lemma short_byte_upper c x :
  In x (Go.replace_byte shortReplacer (Go.upper_byte c)) -> Go.upper_byte x = x.
Proof.
  destruct (short_byte_cases (Go.upper_byte c)) as [[_ E]|[[_ E]|[_ [E _]]]];
    rewrite E; cbn [In].
  - intros [<-|[]]. apply upper_byte_idem.
  - intros [].
  - intros [<-|[]]. reflexivity.
Qed.

Lemma map_upper_fixed s :
  (forall x, In x s -> Go.upper_byte x = x) -> map Go.upper_byte s = s.
Proof.
  induction s as [|c t IH]; intros H; [reflexivity|].
  cbn [map]. rewrite (H c) by (left; reflexivity).
  rewrite IH; [reflexivity|]. intros x Hx. apply H. right. exact Hx.
Qed.

Lemma In_firstn {A} n (l : list A) x : In x (firstn n l) -> In x l.
Proof.
  intros H. rewrite <- (firstn_skipn n l). apply in_or_app. left. exact H.
Qed.

(** The reduced form of an ASCII string is its own reduced form. *)
Lemma reduced_fixed U s n :
  isASCII s = true ->
  let r := firstn n (Go.Replace shortReplacer (Go.ToUpper U s)) in
  Go.ToUpper U r = r /\ Go.Replace shortReplacer r = r.
Proof.
  intros A r.
  assert (Ar : isASCII r = true)
    by (apply isASCII_firstn, Replace_short_isASCII, ToUpper_ascii_isASCII, A).
  split.
  - rewrite (ToUpper_ascii U r Ar). apply map_upper_fixed. intros x Hx.
    unfold r in Hx. apply In_firstn in Hx.
    rewrite (ToUpper_ascii U s A) in Hx.
    rewrite (Replace_single_byte _ _ shortReplacer_single) in Hx.
    apply in_flat_map in Hx. destruct Hx as [y [Hy Hx]].
    apply in_map_iff in Hy. destruct Hy as [c [<- _]].
    apply (short_byte_upper c x Hx).
  - apply Replace_short_fixed_iff. apply has_reserved_firstn, Replace_short_no_reserved.
Qed.

Lemma slice_to_short s n : len s <= n -> slice_to s (Min (len s) n) = s.
Proof.
  intros H. unfold slice_to, Min. destruct (Z.ltb_spec (len s) n).
  - unfold len. rewrite Nat2Z.id. apply firstn_all.
  - replace n with (len s) by lia. unfold len. rewrite Nat2Z.id. apply firstn_all.
Qed.

(** X10. A short name needs no short name: for a name and an extension
    of ASCII bytes, the byte-oriented deriver applied to its own result
    reports [required = false] and returns that result unchanged. *)
Theorem Gen8dot3_fixed_point : forall U file ext,
  isASCII file = true -> isASCII ext = true ->
  Gen8dot3 U (shortName (Gen8dot3 U file ext)) (shortExt (Gen8dot3 U file ext))
  = (false, shortName (Gen8dot3 U file ext), shortExt (Gen8dot3 U file ext)).
Proof.
  intros U file ext Af Ae.
  destruct (Gen8dot3_bounds U file ext) as (Ln & Le & _ & _).
  revert Ln Le. unfold shortName, shortExt.
  unfold Gen8dot3 at 1 2 4 5 6 7. cbv zeta. cbn [fst snd]. unfold slice_to at 1 2 3 4 5 6.
  set (n := firstn _ (Go.Replace shortReplacer (Go.ToUpper U file))).
  set (e := firstn _ (Go.Replace shortReplacer (Go.ToUpper U ext))).
  intros Ln Le.
  destruct (reduced_fixed U file (Z.to_nat (Min (len (Go.Replace shortReplacer (Go.ToUpper U file))) 6)) Af) as [Un Rn].
  destruct (reduced_fixed U ext (Z.to_nat (Min (len (Go.Replace shortReplacer (Go.ToUpper U ext))) 3)) Ae) as [Ue Re].
  fold n in Un, Rn. fold e in Ue, Re.
  unfold Gen8dot3. cbv zeta. rewrite Un, Rn, Ue, Re, !gostring_eqb_refl.
  rewrite !slice_to_short by (unfold len; lia).
  replace (len n >? 8) with false
    by (symmetry; destruct (Z.gtb_spec (len n) 8); [unfold len in *; lia|reflexivity]).
  replace (len e >? 3) with false
    by (symmetry; destruct (Z.gtb_spec (len e) 3); [unfold len in *; lia|reflexivity]).
  reflexivity.
Qed.

Lemma Gen8dot3_fixed_point_witness :
  isASCII (str "long file name") = true /\
  Gen8dot3 Latin1.data
    (shortName (Gen8dot3 Latin1.data (str "long file name") (str "html")))
    (shortExt (Gen8dot3 Latin1.data (str "long file name") (str "html")))
  = (false, shortName (Gen8dot3 Latin1.data (str "long file name") (str "html")),
     shortExt (Gen8dot3 Latin1.data (str "long file name") (str "html"))).
Proof.
  split; [reflexivity|].
  apply (Gen8dot3_fixed_point Latin1.data (str "long file name") (str "html"));
    reflexivity.
Defined.

(** ** More on the Wordlist Pipeline *)

Lemma unescape_no_percent s :
  ~ In "%"%char s -> Go.unescape_check s = None /\ Go.unescape_decode s = s.
Proof.
  induction s as [|c t IH]; intros H; [split; reflexivity|].
  assert (Hc : c <> "%"%char) by (intros ->; apply H; left; reflexivity).
  assert (Ht : ~ In "%"%char t) by (intros Hin; apply H; right; exact Hin).
  apply Ascii.eqb_neq in Hc. destruct (IH Ht) as [IH1 IH2].
  cbn [Go.unescape_check Go.unescape_decode]. rewrite Hc, IH1, IH2.
  split; reflexivity.
Qed.

(** X11. A line without a percent sign passes the two unescapes
    unchanged. *)
Theorem decode_line_no_percent : forall line,
  ~ In "%"%char line -> decode_line line = line.
Proof.
  intros line H. destruct (unescape_no_percent line H) as [E1 E2].
  unfold decode_line, Go.PathUnescape. cbv zeta. rewrite E1. cbn [fst].
  rewrite E2, E1. cbn [fst]. exact E2.
Qed.

Lemma decode_line_no_percent_witness :
  ~ In "%"%char (str "a+b c.txt") /\ decode_line (str "a+b c.txt") = str "a+b c.txt".
Proof.
  assert (H : ~ In "%"%char (str "a+b c.txt")).
  { cbn. intros H. repeat (destruct H as [H|H]; [discriminate H|]). exact H. }
  split; [exact H|]. apply (decode_line_no_percent (str "a+b c.txt") H).
Defined.




(** Each record of the list comes from one of the lines. *)
Lemma ChecksumWords_In U V re order lines rec :
  In rec (ChecksumWords U V re order lines) ->
  exists n line,
    In line lines /\
    process_line U V re (order (2 * n)%nat) (order (2 * n + 1)%nat) line = Some rec.
Proof.
  unfold ChecksumWords.
  assert (G : forall wc n,
             In rec (fst (fold_left (ChecksumWords_step U V re order) lines (wc, n))) ->
             In rec wc \/
             exists n line,
               In line lines /\
               process_line U V re (order (2 * n)%nat) (order (2 * n + 1)%nat) line
               = Some rec).
  { induction lines as [|line lines IH]; intros wc n H; [left; exact H|].
    cbn [fold_left] in H. unfold ChecksumWords_step at 2 in H.
    destruct (process_line U V re (order (2 * n)%nat) (order (2 * n + 1)%nat) line)
      as [r|] eqn:E.
    - destruct (IH _ _ H) as [Hin|(n' & l' & Hl & Hp)].
      + apply in_app_or in Hin. destruct Hin as [Hin|[<-|[]]]; [left; exact Hin|].
        right. exists n, line. split; [left; reflexivity|exact E].
      + right. exists n', l'. split; [right; exact Hl|exact Hp].
    - destruct (IH _ _ H) as [Hin|(n' & l' & Hl & Hp)]; [left; exact Hin|].
      right. exists n', l'. split; [right; exact Hl|exact Hp]. }
  intros H. destruct (G [] 0%nat H) as [[]|H']. exact H'.
Qed.

(** What [process_line] puts in a record. *)
Lemma process_line_Some U V re o1 o2 line rec :
  process_line U V re o1 o2 line = Some rec ->
  let w := sanitize re line in
  required (Gen8dot3Unicode U (filename rec) (extension rec)) = true /\
  (filename rec, extension rec) = split_word w /\
  filename83 rec = shortName (Gen8dot3Unicode U (filename rec) (extension rec)) /\
  extension83 rec = shortExt (Gen8dot3Unicode U (filename rec) (extension rec)) /\
  checksum rec
  = fold_left (fun c v => c ++ v)
      (o2 (if V
           then fold_left (fun vs v => strset_add (Checksum v) vs)
                          (GenerateVariants U o1 w) []
           else []))
      [].
Proof.
  unfold process_line. cbv zeta.
  destruct (split_word (sanitize re line)) as [f e].
  destruct (Gen8dot3Unicode U f e) as [[r f83] e83] eqn:G.
  destruct r; cbn [negb]; [|discriminate].
  intros E. injection E as <-. cbn [filename extension filename83 extension83 checksum].
  rewrite G. unfold required, shortName, shortExt. cbn [fst snd].
  repeat split; reflexivity.
Qed.

(** The two results of the split. *)
Lemma split_word_cases w :
  split_word w = (w, []) \/
  exists name ext,
    split_word w = (name, ext) /\ w = name ++ "."%char :: ext /\
    ~ In "."%char ext /\ name <> [].
Proof.
  destruct (LastIndexByte_from_spec "."%char w 0 (-1)) as [Hn Hy].
  destruct (in_dec ascii_dec "."%char w) as [Hin|Hnin].
  - destruct (Hy Hin) as (pre & post & E & Hp & R).
    unfold split_word, Go.LastIndexByte. cbv zeta. rewrite R.
    destruct ((0 + len pre >? 0) && negb (Ascii.eqb (hd "."%char w) "."%char)) eqn:C;
      [|left; reflexivity].
    right. exists pre, post. apply andb_true_iff in C. destruct C as [C _].
    apply gtb_true_iff in C.
    assert (Hne : pre <> []) by (intros ->; unfold len in C; cbn in C; lia).
    subst w.
    replace (Z.to_nat (0 + len pre)) with (length pre) by (unfold len; lia).
    replace (Z.to_nat (0 + len pre + 1)) with (length (pre ++ ["."%char]))
      by (rewrite length_app; unfold len; cbn [length]; lia).
    rewrite firstn_length_app.
    replace (pre ++ "."%char :: post) with ((pre ++ ["."%char]) ++ post)
      by (rewrite <- app_assoc; reflexivity).
    rewrite skipn_length_app.
    split; [reflexivity|]. split; [rewrite <- app_assoc; reflexivity|].
    split; [exact Hp|exact Hne].
  - left. unfold split_word, Go.LastIndexByte. cbv zeta. rewrite (Hn Hnin). reflexivity.
Qed.

(** X14. Whatever the tables, the options and the map orders, every
    record has an 8.3 name of at most 6 ASCII bytes and an 8.3 extension
    of at most 3 ASCII bytes, they are what the Unicode-aware deriver
    gives for the record's name and extension, and the record's extension
    holds no dot. *)
Theorem ChecksumWords_records : forall U V re order lines rec,
  In rec (ChecksumWords U V re order lines) ->
  filename83 rec = shortName (Gen8dot3Unicode U (filename rec) (extension rec)) /\
  extension83 rec = shortExt (Gen8dot3Unicode U (filename rec) (extension rec)) /\
  isASCII (filename83 rec) = true /\ (length (filename83 rec) <= 6)%nat /\
  isASCII (extension83 rec) = true /\ (length (extension83 rec) <= 3)%nat /\
  ~ In "."%char (extension rec).
Proof.
  intros U V re order lines rec Hin.
  destruct (ChecksumWords_In U V re order lines rec Hin) as (n & line & _ & Hp).
  destruct (process_line_Some U V re _ _ line rec Hp) as (_ & Hs & H83 & E83 & _).
  split; [exact H83|]. split; [exact E83|].
  rewrite H83, E83. unfold Gen8dot3Unicode, shortName, shortExt. cbv zeta. cbn [fst snd].
  split; [apply isASCII_firstn, ToASCII_isASCII|].
  split; [apply (slice_to_Min_length _ 6); lia|].
  split; [apply isASCII_firstn, ToASCII_isASCII|].
  split; [apply (slice_to_Min_length _ 3); lia|].
  destruct (split_word_cases (sanitize re line)) as [E|(name & ext & E & _ & Hd & _)];
    rewrite E in Hs; injection Hs as _ ->; [intros []|exact Hd].
Qed.

Lemma ChecksumWords_records_witness :
  In {| checksum := []; filename := str "longfilename"; extension := str "html";
        filename83 := str "LONGFI"; extension83 := str "HTM" |}
     (ChecksumWords Latin1.data false paramRegex (fun _ => insertion_order)
                    [str "longfilename.html"]) /\
  ~ In "."%char (str "html").
Proof.
  assert (H : In {| checksum := []; filename := str "longfilename";
                    extension := str "html";
                    filename83 := str "LONGFI"; extension83 := str "HTM" |}
                 (ChecksumWords Latin1.data false paramRegex (fun _ => insertion_order)
                                [str "longfilename.html"]))
    by (vm_compute; left; reflexivity).
  split; [exact H|].
  exact (proj2 (proj2 (proj2 (proj2 (proj2 (proj2
           (ChecksumWords_records Latin1.data false paramRegex
              (fun _ => insertion_order) [str "longfilename.html"] _ H))))))).
Defined.

Lemma Gen8dot3Unicode_empty U :
  Go.UnicodeLaws U -> required (Gen8dot3Unicode U [] []) = false.
Proof.
  intros L. unfold Gen8dot3Unicode, required. cbv zeta. cbn [fst].
  change (Go.ToUpper U []) with (@nil ascii).
  change (Go.Replace shortReplacer []) with (@nil ascii).
  rewrite (ToASCII_ascii U [] L) by reflexivity. reflexivity.
Qed.

Lemma process_line_nonempty U V re o1 o2 line rec :
  Go.UnicodeLaws U ->
  process_line U V re o1 o2 line = Some rec ->
  sanitize re line <> [] /\ filename rec <> [].
Proof.
  intros L Hp.
  destruct (process_line_Some U V re o1 o2 line rec Hp) as (Hr & Hs & _).
  cbv zeta in Hs.
  assert (Hw : sanitize re line <> []).
  { intros E. rewrite E in Hs. cbn in Hs. injection Hs as Hf He.
    rewrite Hf, He, (Gen8dot3Unicode_empty U L) in Hr. discriminate. }
  split; [exact Hw|].
  destruct (split_word_cases (sanitize re line)) as [E|(name & ext & E & _ & _ & Hn)];
    rewrite E in Hs; injection Hs as -> _; assumption.
Qed.

(** X15. With tables that obey the laws, no record has an empty name:
    a line whose word is empty gives no record. *)
Theorem ChecksumWords_name_nonempty : forall U, Go.UnicodeLaws U ->
  forall V re order lines rec,
  In rec (ChecksumWords U V re order lines) -> filename rec <> [].
Proof.
  intros U L V re order lines rec Hin.
  destruct (ChecksumWords_In U V re order lines rec Hin) as (n & line & _ & Hp).
  apply (process_line_nonempty U V re _ _ line rec L Hp).
Qed.

Lemma ChecksumWords_name_nonempty_witness :
  In {| checksum := []; filename := str "longfilename"; extension := str "html";
        filename83 := str "LONGFI"; extension83 := str "HTM" |}
     (ChecksumWords Latin1.data false paramRegex (fun _ => insertion_order)
                    [str "longfilename.html"; str "?x=1"]) /\
  str "longfilename" <> [].
Proof.
  assert (H : In {| checksum := []; filename := str "longfilename";
                    extension := str "html";
                    filename83 := str "LONGFI"; extension83 := str "HTM" |}
                 (ChecksumWords Latin1.data false paramRegex (fun _ => insertion_order)
                                [str "longfilename.html"; str "?x=1"]))
    by (vm_compute; left; reflexivity).
  split; [exact H|].
  exact (ChecksumWords_name_nonempty Latin1.data Latin1_laws false paramRegex
           (fun _ => insertion_order) [str "longfilename.html"; str "?x=1"] _ H).
Defined.

(** The checksums of a list of variants, as a set. *)
Lemma checksum_set l : forall acc,
  NoDup acc ->
  let vs := fold_left (fun vs v => strset_add (Checksum v) vs) l acc in
  NoDup vs /\
  (length vs <= length acc + length l)%nat /\
  (forall c, In c vs <-> In c acc \/ exists v, In v l /\ c = Checksum v).
Proof.
  induction l as [|v l IH]; intros acc ND; cbn [fold_left].
  - cbv zeta. split; [exact ND|]. split; [lia|].
    intros c. split; [auto|]. intros [H|(v & [] & _)]. exact H.
  - specialize (IH (strset_add (Checksum v) acc) (strset_add_NoDup _ _ ND)).
    cbv zeta in *. destruct IH as (N & Len & Mem).
    split; [exact N|]. split.
    + pose proof (strset_add_length (Checksum v) acc). cbn [length]. lia.
    + intros c. rewrite Mem, strset_add_In. cbn [In]. split.
      * intros [[->|H]|(v' & Hv & E)].
        -- right. exists v. auto.
        -- left. exact H.
        -- right. exists v'. auto.
      * intros [H|(v' & [<-|Hv] & E)].
        -- left. right. exact H.
        -- left. left. exact E.
        -- right. exists v'. auto.
Qed.

Lemma fold_left_app_concat (l : list gostring) : forall acc,
  fold_left (fun c v => c ++ v) l acc = acc ++ concat l.
Proof.
  induction l as [|v l IH]; intros acc; cbn [fold_left concat].
  - rewrite app_nil_r. reflexivity.
  - rewrite IH, app_assoc. reflexivity.
Qed.

Lemma concat_length_4 (l : list gostring) :
  (forall c, In c l -> length c = 4%nat) -> length (concat l) = (4 * length l)%nat.
Proof.
  induction l as [|c l IH]; intros H; [reflexivity|].
  cbn [concat length]. rewrite length_app.
  rewrite (H c) by (left; reflexivity).
  rewrite IH by (intros c' Hc'; apply H; right; exact Hc'). lia.
Qed.

Lemma In_length_pos {A} (x : A) l : In x l -> (1 <= length l)%nat.
Proof. destruct l; [intros []|cbn [length]; lia]. Qed.

(** X16. With variant generation on and tables that obey the laws, the
    checksum field of every record is the concatenation of one to six
    different four-digit fingerprints, among them the modern checksum of
    the sanitised word of the record's line; so it has 4 to 24 bytes. *)
Theorem ChecksumWords_checksum_field : forall U, Go.UnicodeLaws U ->
  forall re order lines rec,
  (forall n, valid_map_order (order n)) ->
  In rec (ChecksumWords U true re order lines) ->
  exists cs line,
    checksum rec = concat cs /\ NoDup cs /\
    (1 <= length cs <= 6)%nat /\
    (forall c, In c cs -> fingerprint 4 c) /\
    length (checksum rec) = (4 * length cs)%nat /\
    In line lines /\
    (filename rec, extension rec) = split_word (sanitize re line) /\
    In (Checksum (sanitize re line)) cs.
Proof.
  intros U L re order lines rec Hord Hin.
  destruct (ChecksumWords_In U true re order lines rec Hin) as (n & line & Hl & Hp).
  destruct (process_line_nonempty U true re _ _ line rec L Hp) as [Hw _].
  destruct (process_line_Some U true re _ _ line rec Hp) as (_ & Hs & _ & _ & Hc).
  cbv zeta in Hs, Hc.
  set (w := sanitize re line) in *.
  destruct (GenerateVariants_spec U (order (2 * n)%nat) w (Hord _)) as (_ & VL & VM).
  set (variants := GenerateVariants U (order (2 * n)%nat) w) in *.
  destruct (checksum_set variants [] (NoDup_nil _)) as (SN & SL & SM).
  cbv zeta in SN, SL, SM.
  set (vs := fold_left (fun vs v => strset_add (Checksum v) vs) variants []) in *.
  pose proof (Hord (2 * n + 1)%nat vs) as P.
  set (cs := order (2 * n + 1)%nat vs) in *.
  assert (F : forall c, In c cs -> fingerprint 4 c).
  { intros c Hc'. apply (Permutation_in c (Permutation_sym P)) in Hc'.
    apply SM in Hc'. destruct Hc' as [[]|(v & _ & ->)]. apply Checksum_shape. }
  assert (W : In (Checksum w) cs).
  { apply (Permutation_in _ P). apply SM. right. exists w. split; [|reflexivity].
    apply VM. split; [exact Hw|left; reflexivity]. }
  exists cs, line.
  rewrite Hc, fold_left_app_concat. cbn [app].
  split; [reflexivity|].
  split; [apply (Permutation_NoDup P SN)|].
  split.
  { pose proof (Permutation_length P) as Lcs.
    pose proof (In_length_pos _ _ W). cbn [length] in SL.
    clear - Lcs H SL VL. clearbody cs vs variants.
    unfold strset, map_order, gostring in *. lia. }
  split; [exact F|].
  split; [apply concat_length_4; intros c Hc'; apply (F c Hc')|].
  split; [exact Hl|]. split; [exact Hs|exact W].
Qed.

Lemma ChecksumWords_checksum_field_witness :
  In {| checksum := str "CE864162"; filename := str "ping"; extension := str "aspx";
        filename83 := str "PING"; extension83 := str "ASP" |}
     (ChecksumWords Latin1.data true paramRegex (fun _ => insertion_order)
                    [str "ping.aspx"]) /\
  exists cs line,
    str "CE864162" = concat cs /\ NoDup cs /\
    (1 <= length cs <= 6)%nat /\
    (forall c, In c cs -> fingerprint 4 c) /\
    length (str "CE864162") = (4 * length cs)%nat /\
    In line [str "ping.aspx"] /\
    (str "ping", str "aspx") = split_word (sanitize paramRegex line) /\
    In (Checksum (sanitize paramRegex line)) cs.
Proof.
  assert (H : In {| checksum := str "CE864162"; filename := str "ping";
                    extension := str "aspx";
                    filename83 := str "PING"; extension83 := str "ASP" |}
                 (ChecksumWords Latin1.data true paramRegex (fun _ => insertion_order)
                                [str "ping.aspx"]))
    by (vm_compute; left; reflexivity).
  split; [exact H|].
  exact (ChecksumWords_checksum_field Latin1.data Latin1_laws paramRegex
           (fun _ => insertion_order) [str "ping.aspx"] _
           (fun _ => insertion_order_valid) H).
Defined.

(** ** The command line *)

Section RunWordlist.

Variable U : Go.UnicodeData.
Variable KeepCase : bool.

Lemma Run_rows_uniq wc : forall words rows,
  words = map uniq_key rows -> NoDup words ->
  let st := fold_left (Run_wordlist_step U KeepCase true) wc (words, rows) in
  fst st = map uniq_key (snd st) /\ NoDup (fst st) /\
  (forall k, In k words -> In k (fst st)) /\
  (forall w, In w wc -> In (uniq_key (cased U KeepCase w)) (fst st)) /\
  (forall row, In row (snd st) ->
     In row rows \/ exists w, In w wc /\ row = cased U KeepCase w).
Proof.
  induction wc as [|w wc IH]; intros words rows E ND; cbv zeta.
  - cbn [fold_left fst snd]. repeat split; auto. intros _ [].
  - cbn [fold_left]. unfold Run_wordlist_step at 2 4 6 8 10 12.
    destruct (existsb (gostring_eqb (uniq_key (cased U KeepCase w))) words) eqn:X.
    + specialize (IH words rows E ND). cbv zeta in IH.
      destruct IH as (I1 & I2 & I3 & I4 & I5).
      apply existsb_gostring_eqb in X.
      split; [exact I1|]. split; [exact I2|]. split; [exact I3|]. split.
      * intros w' [<-|Hw]; [apply I3, X|apply I4, Hw].
      * intros row Hr. destruct (I5 row Hr) as [H|(w' & Hw & ->)]; [left; exact H|].
        right. exists w'. split; [right; exact Hw|reflexivity].
    + assert (A : strset_add (uniq_key (cased U KeepCase w)) words
                  = words ++ [uniq_key (cased U KeepCase w)])
        by (unfold strset_add; rewrite X; reflexivity).
      assert (E' : strset_add (uniq_key (cased U KeepCase w)) words
                   = map uniq_key (rows ++ [cased U KeepCase w]))
        by (rewrite A, map_app, E; reflexivity).
      specialize (IH _ _ E' (strset_add_NoDup _ _ ND)). cbv zeta in IH.
      destruct IH as (I1 & I2 & I3 & I4 & I5).
      split; [exact I1|]. split; [exact I2|]. split.
      * intros k Hk. apply I3, strset_add_In. right. exact Hk.
      * split.
        -- intros w' [<-|Hw]; [apply I3, strset_add_In; left; reflexivity|apply I4, Hw].
        -- intros row Hr. destruct (I5 row Hr) as [H|(w' & Hw & ->)].
           ++ apply in_app_or in H. destruct H as [H|[<-|[]]]; [left; exact H|].
              right. exists w. split; [left; reflexivity|reflexivity].
           ++ right. exists w'. split; [right; exact Hw|reflexivity].
Qed.

Lemma Run_rows_all wc : forall words rows,
  snd (fold_left (Run_wordlist_step U KeepCase false) wc (words, rows))
  = rows ++ map (cased U KeepCase) wc.
Proof.
  induction wc as [|w wc IH]; intros words rows.
  - cbn. rewrite app_nil_r. reflexivity.
  - cbn [fold_left map]. unfold Run_wordlist_step at 2. rewrite IH, <- app_assoc.
    reflexivity.
Qed.

End RunWordlist.

(** X17. The rows that the [wordlist] subcommand prints.  Without
    [Uniq] every record is printed, in order.  With [Uniq] the keys
    [f.e] of the printed rows are pairwise different, the key of every
    record is among them, and every printed row is the row of a record;
    the name and extension are upper-cased first unless [KeepCase]. *)
Theorem Run_wordlist_rows_uniq : forall U KeepCase wc,
  Run_wordlist_rows U KeepCase false wc = map (cased U KeepCase) wc /\
  NoDup (map uniq_key (Run_wordlist_rows U KeepCase true wc)) /\
  (forall w, In w wc ->
     In (uniq_key (cased U KeepCase w))
        (map uniq_key (Run_wordlist_rows U KeepCase true wc))) /\
  (forall row, In row (Run_wordlist_rows U KeepCase true wc) ->
     exists w, In w wc /\ row = cased U KeepCase w).
Proof.
  intros U KeepCase wc. unfold Run_wordlist_rows. split.
  - rewrite Run_rows_all. reflexivity.
  - destruct (Run_rows_uniq U KeepCase wc [] [] eq_refl (NoDup_nil _))
      as (I1 & I2 & _ & I4 & I5).
    cbv zeta in *. rewrite <- I1. split; [exact I2|]. split; [exact I4|].
    intros row Hr. destruct (I5 row Hr) as [[]|H]. exact H.
Qed.

(** X18. The [checksum] subcommand.  It panics exactly when the
    algorithm is [original] and the file name has fewer than two bytes.
    Otherwise it prints one line: two hexadecimal digits for [win95] and
    [fat32], four for the others; every algorithm name other than
    [original], [win95], [nt] and [fat32] gives the modern checksum. *)
Theorem Run_checksum_outcome : forall Algorithm Filename,
  (Run_checksum Algorithm Filename = Panics <->
   Algorithm = AlgoOriginal /\ (length Filename < 2)%nat) /\
  (forall out, Run_checksum Algorithm Filename = Returns out ->
     exists h, out = h ++ newline /\
       fingerprint (if gostring_eqb Algorithm AlgoWin95
                       || gostring_eqb Algorithm AlgoFAT32 then 2 else 4) h) /\
  (Algorithm <> AlgoOriginal -> Algorithm <> AlgoWin95 ->
   Algorithm <> AlgoNT -> Algorithm <> AlgoFAT32 ->
   Run_checksum Algorithm Filename = Returns (Checksum Filename ++ newline)).
Proof.
  intros a f. unfold Run_checksum, newline. cbv zeta.
  destruct (gostring_eqb a AlgoOriginal) eqn:EO.
  { apply gostring_eqb_eq in EO. subst a.
    change (gostring_eqb AlgoOriginal AlgoWin95 || gostring_eqb AlgoOriginal AlgoFAT32)
      with false. cbv iota.
    destruct f as [|f0 [|f1 rest]].
    - change (ChecksumOriginal []) with (@Panics gostring). cbv iota.
      split; [|split].
      + split; [intros _; split; [reflexivity|cbn [length]; lia]|reflexivity].
      + intros out H. discriminate H.
      + congruence.
    - change (ChecksumOriginal [f0]) with (@Panics gostring). cbv iota.
      split; [|split].
      + split; [intros _; split; [reflexivity|cbn [length]; lia]|reflexivity].
      + intros out H. discriminate H.
      + congruence.
    - destruct (ChecksumOriginal_shape f0 f1 rest) as (h & E & F). rewrite E.
      cbv beta iota. split; [|split].
      + split; [discriminate|]. intros [_ H]. cbn [length] in H. lia.
      + intros out H. exists h. split; [congruence|exact F].
      + congruence. }
  destruct (gostring_eqb a AlgoWin95) eqn:EW.
  { cbn [orb]. cbv beta iota. split; [|split].
    - split; [discriminate|]. intros [H _]. apply gostring_eqb_neq in EO. contradiction.
    - intros out H. exists (ChecksumWin95 f). split; [congruence|].
      apply ChecksumWin95_shape.
    - intros _ H. apply gostring_eqb_eq in EW. contradiction. }
  destruct (gostring_eqb a AlgoNT) eqn:EN.
  { assert (EF : gostring_eqb a AlgoFAT32 = false).
    { apply gostring_eqb_eq in EN. subst a. reflexivity. }
    rewrite EF. cbn [orb]. cbv beta iota. split; [|split].
    - split; [discriminate|]. intros [H _]. apply gostring_eqb_neq in EO. contradiction.
    - intros out H. exists (ChecksumNT f). split; [congruence|].
      apply ChecksumNT_shape.
    - intros _ _ H. apply gostring_eqb_eq in EN. contradiction. }
  destruct (gostring_eqb a AlgoFAT32) eqn:EF.
  { cbn [orb]. cbv beta iota. split; [|split].
    - split; [discriminate|]. intros [H _]. apply gostring_eqb_neq in EO. contradiction.
    - intros out H. exists (ChecksumFAT32 f). split; [congruence|].
      apply ChecksumFAT32_shape.
    - intros _ _ _ H. apply gostring_eqb_eq in EF. contradiction. }
  cbn [orb]. cbv beta iota. split; [|split].
  - split; [discriminate|]. intros [H _]. apply gostring_eqb_neq in EO. contradiction.
  - intros out H. exists (Checksum f). split; [congruence|].
    apply Checksum_shape.
  - reflexivity.
Qed.

Lemma Run_checksum_outcome_witness :
  str "md5" <> AlgoOriginal /\
  Run_checksum (str "md5") (str "a") = Returns (Checksum (str "a") ++ newline).
Proof.
  split; [discriminate|].
  apply (proj2 (proj2 (Run_checksum_outcome (str "md5") (str "a")))); discriminate.
Defined.

(** ** The sanitised word *)

(** The bytes after the first of a decoded rune are not ASCII, and an
    ASCII first byte is the rune. *)
Lemma DecodeRuneInString_bytes c t r w :
  Go.DecodeRuneInString (c :: t) = (r, w) ->
  (b2z c < 128 -> r = b2z c) /\
  forallb (fun x => 128 <=? b2z x) (firstn (Nat.pred w) t) = true.
Proof.
  unfold Go.DecodeRuneInString. intros H.
  repeat match type of H with
         | context [if ?a =? ?b then _ else _] => destruct (a =? b) eqn:?
         | context [match ?l with [] => _ | _ :: _ => _ end] => destruct l
         | context [if ?b then _ else _] => destruct b eqn:?
         end;
    injection H as <- <-; cbn [Nat.pred firstn forallb];
    unfold Go.between in *;
    repeat match goal with
           | H : _ && _ = true |- _ => apply andb_true_iff in H; destruct H
           | H : (_ <=? _) = true |- _ => apply Z.leb_le in H
           | H : (_ <? _) = true |- _ => apply Z.ltb_lt in H
           | H : (_ <? _) = false |- _ => apply Z.ltb_ge in H
           end;
    (split; [intros; lia|]);
    rewrite ?andb_true_r;
    repeat (apply andb_true_iff; split); try reflexivity; apply Z.leb_le; lia.
Qed.

Lemma high_byte_no_delimiter z : 128 <= z -> Go.class_match paramRegex z = false.
Proof.
  intros H. unfold Go.class_match, paramRegex, Go.between. cbn [existsb fst snd xorb].
  repeat match goal with
         | |- context [?a <=? z] => destruct (Z.leb_spec a z)
         | |- context [z <=? ?a] => destruct (Z.leb_spec z a)
         end; try reflexivity; lia.
Qed.

(** The first match of the parameter expression: no delimiter stands
    before it. *)
Lemma first_delimiter s : forall skip i0,
  forallb (fun x => 128 <=? b2z x) (firstn skip s) = true ->
  match find (fun ir => Go.class_match paramRegex (snd ir)) (Go.range_from skip i0 s) with
  | Some (i, _) => i0 <= i /\ no_delimiter (firstn (Z.to_nat (i - i0)) s)
  | None => no_delimiter s
  end.
Proof.
  induction s as [|c t IH]; intros skip i0 Hs.
  - cbn. intros x [].
  - cbn [Go.range_from]. destruct skip as [|k].
    + destruct (Go.DecodeRuneInString (c :: t)) as [r w] eqn:D.
      destruct (DecodeRuneInString_bytes c t r w D) as [Hr Hb].
      cbn [find snd]. destruct (Go.class_match paramRegex r) eqn:M.
      * split; [lia|]. rewrite Z.sub_diag. intros x [].
      * assert (Hc : Go.class_match paramRegex (b2z c) = false).
        { destruct (Z.lt_ge_cases (b2z c) 128) as [Hlt|Hge].
          - rewrite <- (Hr Hlt). exact M.
          - apply high_byte_no_delimiter, Hge. }
        specialize (IH (Nat.pred w) (i0 + 1) Hb).
        destruct (find _ (Go.range_from (Nat.pred w) (i0 + 1) t)) as [[i r']|].
        -- destruct IH as [Hi Hn]. split; [lia|].
           replace (Z.to_nat (i - i0)) with (S (Z.to_nat (i - (i0 + 1)))) by lia.
           cbn [firstn]. intros x [<-|Hx]; [exact Hc|apply Hn, Hx].
        -- intros x [<-|Hx]; [exact Hc|apply IH, Hx].
    + cbn [firstn forallb] in Hs. apply andb_true_iff in Hs. destruct Hs as [Hc Hs].
      apply Z.leb_le in Hc. apply high_byte_no_delimiter in Hc.
      specialize (IH k (i0 + 1) Hs).
      destruct (find _ (Go.range_from k (i0 + 1) t)) as [[i r']|].
      * destruct IH as [Hi Hn]. split; [lia|].
        replace (Z.to_nat (i - i0)) with (S (Z.to_nat (i - (i0 + 1)))) by lia.
        cbn [firstn]. intros x [<-|Hx]; [exact Hc|apply Hn, Hx].
      * intros x [<-|Hx]; [exact Hc|apply IH, Hx].
Qed.

Lemma Split2_head_prefix re s x : In x (Go.Split2_head re s) -> In x s.
Proof.
  unfold Go.Split2_head.
  destruct (find _ (Go.range s)) as [[i r]|]; [apply In_firstn|auto].
Qed.

Lemma Split2_head_no_delimiter s : no_delimiter (Go.Split2_head paramRegex s).
Proof.
  unfold Go.Split2_head, Go.range.
  pose proof (first_delimiter s 0 0 eq_refl) as H.
  destruct (find _ (Go.range_from 0 0 s)) as [[i r]|]; [|exact H].
  destruct H as [_ H]. rewrite Z.sub_0_r in H. exact H.
Qed.

Lemma In_dropWhile {A} (p : A -> bool) l x : In x (Go.dropWhile p l) -> In x l.
Proof.
  induction l as [|y l IH]; [auto|]. cbn [Go.dropWhile].
  destruct (p y); [intros H; right; apply IH, H|auto].
Qed.

Lemma chunks_from_bytes s : forall skip r bs x,
  In (r, bs) (Go.chunks_from skip s) -> In x bs -> In x s.
Proof.
  induction s as [|c t IH]; intros skip r bs x Hc Hx; [destruct Hc|].
  cbn [Go.chunks_from] in Hc. destruct skip as [|k].
  - destruct (Go.DecodeRuneInString (c :: t)) as [r' w].
    destruct Hc as [E|Hc].
    + injection E as _ <-. apply (In_firstn w). exact Hx.
    + right. apply (IH _ _ _ _ Hc Hx).
  - right. apply (IH _ _ _ _ Hc Hx).
Qed.

Lemma TrimSpace_bytes s x : In x (Go.TrimSpace s) -> In x s.
Proof.
  unfold Go.TrimSpace. cbv zeta. intros H.
  apply in_concat in H. destruct H as [bs [Hbs Hx]].
  apply in_map_iff in Hbs. destruct Hbs as [[r bs'] [E Hc]]. cbn [snd] in E. subst bs'.
  apply in_rev, In_dropWhile, in_rev, In_dropWhile in Hc.
  apply (chunks_from_bytes s 0 r bs x Hc Hx).
Qed.

Lemma remove_tabs_bytes s x :
  In x (Go.ReplaceAll s (str (String (ascii_of_nat 9) EmptyString)) (str "")) ->
  In x s /\ x <> ascii_of_nat 9.
Proof.
  unfold Go.ReplaceAll. rewrite Replace_single_byte by (repeat constructor).
  intros H. apply in_flat_map in H. destruct H as [c [Hc Hx]].
  unfold Go.replace_byte in Hx. cbn [find fst Go.HasPrefix str list_ascii_of_string] in Hx.
  destruct (Ascii.eqb_spec (ascii_of_nat 9) c) as [->|N]; cbn [andb] in Hx.
  - destruct Hx.
  - destruct Hx as [<-|[]]. split; [exact Hc|]. intros E. apply N. symmetry. exact E.
Qed.

Lemma Base_slash p : Go.Base p = str "/" \/ ~ In "/"%char (Go.Base p).
Proof.
  unfold Go.Base. destruct p as [|c p]; [right; cbn; intros [H|[]]; discriminate H|].
  cbv zeta. set (q := rev (Go.dropWhile (Ascii.eqb "/"%char) (rev (c :: p)))).
  destruct (LastIndexByte_from_spec "/"%char q 0 (-1)) as [Hn Hy].
  unfold Go.LastIndexByte.
  destruct (in_dec ascii_dec "/"%char q) as [Hin|Hnin].
  - destruct (Hy Hin) as (pre & post & E & Hp & R). rewrite R.
    destruct (Z.leb_spec 0 (0 + len pre)) as [_|Hneg]; [|unfold len in Hneg; lia].
    replace (Z.to_nat (0 + len pre + 1)) with (length (pre ++ ["/"%char]))
      by (rewrite length_app; unfold len; cbn [length]; lia).
    rewrite E.
    replace (pre ++ "/"%char :: post) with ((pre ++ ["/"%char]) ++ post)
      by (rewrite <- app_assoc; reflexivity).
    rewrite skipn_length_app.
    destruct post as [|d post]; [left; reflexivity|right; exact Hp].
  - rewrite (Hn Hnin). cbn [Z.leb].
    destruct q as [|d q']; [left; reflexivity|right; exact Hnin].
Qed.

(** X12. The word that the pipeline splits holds none of the parameter
    delimiters [? ; # &], no carriage return, no line feed and no tab; and
    it holds a slash only when it is the word [/] itself. *)
Theorem sanitize_clean : forall line c,
  In c (sanitize paramRegex line) ->
  ~ In c (str "?;#&") /\
  c <> ascii_of_nat 13 /\ c <> ascii_of_nat 10 /\ c <> ascii_of_nat 9 /\
  (c = "/"%char -> sanitize paramRegex line = str "/").
Proof.
  intros line c H. unfold sanitize in *. cbv zeta in *.
  apply remove_tabs_bytes in H. destruct H as [H Htab].
  apply TrimSpace_bytes in H.
  pose proof (Split2_head_no_delimiter (Go.Base (decode_line line)) c H) as D.
  apply Split2_head_prefix in H.
  assert (N : forall d, Go.class_match paramRegex (b2z d) = true -> c <> d)
    by (intros d Hd ->; congruence).
  split.
  { cbn [str list_ascii_of_string In]. intros [E|[E|[E|[E|[]]]]];
      symmetry in E; revert E; apply N; reflexivity. }
  split; [apply N; reflexivity|]. split; [apply N; reflexivity|].
  split; [exact Htab|].
  intros ->. destruct (Base_slash (decode_line line)) as [E|E]; [|contradiction].
  rewrite E. vm_compute. reflexivity.
Qed.

Lemma sanitize_clean_witness :
  In "x"%char (sanitize paramRegex (str "/a/b/x y.txt?id=1")) /\
  ~ In "x"%char (str "?;#&").
Proof.
  assert (H : In "x"%char (sanitize paramRegex (str "/a/b/x y.txt?id=1")))
    by (vm_compute; left; reflexivity).
  split; [exact H|].
  exact (proj1 (sanitize_clean (str "/a/b/x y.txt?id=1") "x"%char H)).
Defined.

(** ** The variants of an ASCII word *)

Lemma turkish_no_match c t :
  b2z c < 128 -> find (fun on => Go.HasPrefix (c :: t) (fst on)) turkish = None.
Proof.
  intros H.
  assert (N : forall x y, 128 <= b2z x -> Go.HasPrefix (c :: t) [x; y] = false).
  { intros x y Hx. cbn [Go.HasPrefix]. destruct (Ascii.eqb_spec x c) as [->|]; [lia|].
    reflexivity. }
  let t := eval vm_compute in turkish in change turkish with t.
  cbn [find fst].
  repeat (rewrite N by (vm_compute; discriminate)). reflexivity.
Qed.

Lemma Replace_turkish_ascii s : isASCII s = true -> Go.Replace turkish s = s.
Proof.
  unfold Go.Replace. induction s as [|c t IH]; intros H; [reflexivity|].
  cbn [isASCII forallb] in H. apply andb_true_iff in H. destruct H as [Hc Ht].
  apply Z.ltb_lt in Hc. cbn [Go.Replace_from]. rewrite (turkish_no_match c t Hc).
  rewrite (IH Ht). reflexivity.
Qed.

(** X19. With tables that obey the laws, an ASCII word has at most four
    variants: the word, its lower case, its upper case and its restriction
    to [[a-zA-Z0-9_.-]]; folding and the Turkish replacement add
    nothing. *)
Theorem GenerateVariants_ascii : forall U, Go.UnicodeLaws U -> forall order s,
  valid_map_order order -> isASCII s = true ->
  (length (GenerateVariants U order s) <= 4)%nat /\
  (forall v, In v (GenerateVariants U order s) ->
     v = s \/ v = Go.ToLower U s \/ v = Go.ToUpper U s \/
     v = Go.ReplaceAllString_empty nonAlphanum s).
Proof.
  intros U L order s Hord A.
  destruct (GenerateVariants_spec U order s Hord) as (ND & _ & M).
  assert (I : forall v, In v (GenerateVariants U order s) ->
              In v [s; Go.ToLower U s; Go.ToUpper U s;
                    Go.ReplaceAllString_empty nonAlphanum s]).
  { intros v Hv. apply M in Hv. destruct Hv as [_ Hv].
    rewrite (ToASCII_ascii U s L A), (Replace_turkish_ascii s A) in Hv.
    cbn [In]. intuition auto. }
  split.
  - apply (NoDup_incl_length ND I).
  - intros v Hv. specialize (I v Hv). cbn [In] in I.
    destruct I as [<-|[<-|[<-|[<-|[]]]]]; auto.
Qed.

Lemma GenerateVariants_ascii_witness :
  isASCII (str "Ping.aspx") = true /\
  (length (GenerateVariants Latin1.data insertion_order (str "Ping.aspx")) <= 4)%nat.
Proof.
  split; [reflexivity|].
  exact (proj1 (GenerateVariants_ascii Latin1.data Latin1_laws insertion_order
                  (str "Ping.aspx") insertion_order_valid eq_refl)).
Defined.
